(** * NoiseBox: the playback controller and its audio device registry

    A shallow embedding of [medialogic/controller.py] and of the part of
    [medialogic/media_library.py] the controller calls, with the properties
    of the device registry ([AudioDevices]) and of the scheduling operations
    ([Controller.play], [queue], [queue_repeat], [list_devices]).

    Conventions.
    - A Python call either returns or raises: methods that can raise return
      a [result]. Methods that mutate [self] return the new [self].
    - Python [str] values are [string]s; a [bytes] value handed over by the
      native library is represented by the same [string], so that
      [str(b, 'utf-8')] is the identity on the text the library reports.
    - A [dict] that is iterated is an insertion-ordered association list
      ([odict]); a [dict] that is only looked up is a [gmap]. *)

From Stdlib Require Import ZArith NArith String Ascii List Lia DecimalString.
From stdpp Require Import gmap strings list sorting.
Import ListNotations.

Local Open Scope string_scope.
Local Open Scope Z_scope.

(** ** Python values shared by the modules *)

Inductive exn : Type :=
| UseAfterFreeException
| KeyError
| NotFoundException
| AttributeError.

Inductive result (A : Type) : Type :=
| Ok (a : A)
| Raise (e : exn).
Arguments Ok {A} a.
Arguments Raise {A} e.

Definition result_bind {A B} (r : result A) (k : A -> result B) : result B :=
  match r with
  | Ok a => k a
  | Raise e => Raise e
  end.

(** [[f(x) for x in xs]] where [f] may raise: the first exception wins. *)
Fixpoint result_map {A B} (f : A -> result B) (xs : list A) : result (list B) :=
  match xs with
  | [] => Ok []
  | x :: xs' =>
      result_bind (f x) (fun y =>
      result_bind (result_map f xs') (fun ys => Ok (y :: ys)))
  end.

(** The exceptions of the media library's own methods and of the flags
    module besides those above; [Exn] takes the ones above along. *)
Inductive error : Type :=
| Exn (e : exn)
| AlreadyExistsException
| IllegalArgument
| ValueError
| BadFormatException
| Exception
| SystemExit.

Inductive outcome (A : Type) : Type :=
| Returns (a : A)
| Raises (e : error).
Arguments Returns {A} a.
Arguments Raises {A} e.

Definition outcome_of {A} (r : result A) : outcome A :=
  match r with
  | Ok a => Returns a
  | Raise e => Raises (Exn e)
  end.

(** [l.remove(x)]: the list without the first occurrence of [x], or
    [ValueError] when there is none. *)
Fixpoint list_remove (x : string) (l : list string) : outcome (list string) :=
  match l with
  | [] => Raises ValueError
  | y :: l' =>
      if String.eqb x y then Returns l'
      else match list_remove x l' with
           | Returns l'' => Returns (y :: l'')
           | Raises e => Raises e
           end
  end.

(** [sorted(l, key=key)] for a key that is a [str]: ascending in the order
    of [str], which on the bytes of the text is [String.leb]. Where two keys
    are equal Python keeps the order of [l]; nothing below depends on how
    ties are broken. *)
Definition key_le {A} (key : A -> string) : relation A :=
  fun x y => String.leb (key x) (key y) = true.

#[global] Instance key_le_dec {A} (key : A -> string) (x y : A) :
  Decision (key_le key x y) := bool_eq_dec _ _.

Definition sorted {A} (key : A -> string) (l : list A) : list A :=
  merge_sort (key_le key) l.

Definition TAB : string := String (ascii_of_nat 9) EmptyString.
Definition NEWLINE : string := String (ascii_of_nat 10) EmptyString.

(** ["%s" % n] for an [int]. *)
Definition str_of_int (n : Z) : string := NilZero.string_of_int (Z.to_int n).

(** [enumerate(xs)], counting from [start]. *)
Fixpoint enumerate_from {A} (start : Z) (xs : list A) : list (Z * A) :=
  match xs with
  | [] => []
  | x :: xs' => (start, x) :: enumerate_from (start + 1) xs'
  end.

Definition enumerate {A} (xs : list A) : list (Z * A) := enumerate_from 0 xs.

(** ** Insertion-ordered dictionaries *)

Module odict.
Definition t (V : Type) : Type := list (Z * V).

Definition empty {V} : t V := [].

(** [d.get(k)]: [None] when the key is missing. *)
Fixpoint get {V} (k : Z) (d : t V) : option V :=
  match d with
  | [] => None
  | (k', v) :: d' => if Z.eqb k k' then Some v else get k d'
  end.

(** [d[k] = v]: an existing key keeps its place, a new one goes last. *)
Fixpoint setitem {V} (k : Z) (v : V) (d : t V) : t V :=
  match d with
  | [] => [(k, v)]
  | (k', v') :: d' =>
      if Z.eqb k k' then (k', v) :: d' else (k', v') :: setitem k v d'
  end.

(** [d[k]]: raises [KeyError] when the key is missing. *)
Definition getitem {V} (k : Z) (d : t V) : result V :=
  match get k d with
  | Some v => Ok v
  | None => Raise KeyError
  end.

Definition items {V} (d : t V) : list (Z * V) := d.

(** [{k: v for k, v in kvs}] *)
Definition of_pairs {V} (kvs : list (Z * V)) : t V :=
  fold_left (fun d kv => setitem (fst kv) (snd kv) d) kvs empty.
End odict.

(** ** The native audio output device list

    libvlc hands out a NULL-terminated singly linked list of
    [libvlc_audio_output_device_t] records; python-vlc exposes the pointer
    and, through [.contents], the record it points to. *)

Inductive AudioOutputDevice : Type :=
| NULL
| Ptr (addr : N) (contents : audio_output_device_t)
with audio_output_device_t : Type :=
| Struct (next : AudioOutputDevice) (device description : string).

Definition next (c : audio_output_device_t) : AudioOutputDevice :=
  match c with Struct n _ _ => n end.
Definition device (c : audio_output_device_t) : string :=
  match c with Struct _ d _ => d end.
Definition description (c : audio_output_device_t) : string :=
  match c with Struct _ _ d => d end.

(** The records of a native list, in link order. *)
Fixpoint nodes (p : AudioOutputDevice) : list audio_output_device_t :=
  match p with
  | NULL => []
  | Ptr _ c => c :: match c with Struct n _ _ => nodes n end
  end.

(** The state of the native library as far as device lists go: what the
    platform would report now, the lists handed out and not yet released,
    and every release call made so far. *)
Record libvlc : Type := {
  hardware : list (string * string);
  brk : N;
  live : list N;
  release_calls : list AudioOutputDevice
}.

Fixpoint alloc_list (a : N) (hw : list (string * string)) : AudioOutputDevice :=
  match hw with
  | [] => NULL
  | (dev, desc) :: hw' => Ptr a (Struct (alloc_list (N.succ a) hw') dev desc)
  end.

Definition head_addr (p : AudioOutputDevice) : list N :=
  match p with
  | NULL => []
  | Ptr a _ => [a]
  end.

Definition libvlc_audio_output_device_enum (vlc : libvlc)
  : AudioOutputDevice * libvlc :=
  let p := alloc_list (brk vlc) (hardware vlc) in
  (p, {| hardware := hardware vlc;
         brk := (brk vlc + N.of_nat (length (hardware vlc)))%N;
         live := (head_addr p ++ live vlc)%list;
         release_calls := release_calls vlc |}).

Definition libvlc_audio_output_device_list_release
    (p : AudioOutputDevice) (vlc : libvlc) : libvlc :=
  {| hardware := hardware vlc;
     brk := brk vlc;
     live := match p with
             | NULL => live vlc
             | Ptr a _ => List.filter (fun b => negb (N.eqb a b)) (live vlc)
             end;
     release_calls := (release_calls vlc ++ [p])%list |}.

(** ** [AudioDevice] and [AudioDevices] *)

Definition FREED_ERROR_STRING : string := "Invalid object - already freed.".

Module AudioDevice.
(** [AudioDevice(p)] keeps [p.contents], the record behind the pointer; the
    registry only builds one from a pointer that is not NULL. *)
Record t : Type := { contents : audio_output_device_t }.

Definition __str__ (self : t) : string := description (contents self).

Definition __repr__ (self : t) : string := __str__ self.
End AudioDevice.

Module AudioDevices.
Record t : Type := {
  device_list_ptr : AudioOutputDevice;
  user_device_map : odict.t AudioDevice.t;
  device_name_map : gmap (option string) (option AudioDevice.t);
  _valid : bool
}.

(** The [while cur:] loop, with [output] as it stands on entry: a NULL
    [cur] ends it, any other one is wrapped, appended and followed. *)
Fixpoint _build_devices_loop (cur : AudioOutputDevice)
    (output : list AudioDevice.t) : list AudioDevice.t :=
  match cur with
  | NULL => output
  | Ptr _ c =>
      let output := (output ++ [AudioDevice.Build_t c])%list in
      match c with Struct n _ _ => _build_devices_loop n output end
  end.

Definition _build_devices (audio_output_device : AudioOutputDevice)
  : list AudioDevice.t :=
  _build_devices_loop audio_output_device [].

Definition __init__ (audio_device_enum : AudioOutputDevice) : t :=
  let device_list := _build_devices audio_device_enum in
  let user_device_map := odict.of_pairs (enumerate device_list) in
  let device_name_map :=
    fold_left
      (fun m d => <[Some (device (AudioDevice.contents d)) := Some d]> m)
      device_list
      ({[None := odict.get 0 user_device_map]}
         : gmap (option string) (option AudioDevice.t)) in
  {| device_list_ptr := audio_device_enum;
     user_device_map := user_device_map;
     device_name_map := device_name_map;
     _valid := true |}.

Definition valid (self : t) : bool := _valid self.

Definition free (self : t) (vlc : libvlc) : t * libvlc :=
  if valid self then
    let vlc := libvlc_audio_output_device_list_release (device_list_ptr self) vlc in
    ({| device_list_ptr := device_list_ptr self;
        user_device_map := user_device_map self;
        device_name_map := device_name_map self;
        _valid := false |}, vlc)
  else (self, vlc).

Definition __str__ (self : t) : result string :=
  if negb (valid self) then Ok FREED_ERROR_STRING
  else
    let output :=
      map (fun entry : Z * AudioDevice.t =>
             TAB ++ str_of_int (fst entry) ++ ": " ++ AudioDevice.__str__ (snd entry))
          (odict.items (user_device_map self)) in
    Ok (NEWLINE ++ String.concat NEWLINE output).

Definition device_for_index (self : t) (index : Z) : result AudioDevice.t :=
  if negb (valid self) then Raise UseAfterFreeException
  else odict.getitem index (user_device_map self).

Definition device_from_device_name (self : t) (device_name : option string)
  : result (option AudioDevice.t) :=
  match device_name_map self !! device_name with
  | Some d => Ok d
  | None => Raise KeyError
  end.

(** [repr] of the [dict]: braces around [key: value] entries separated by a
    comma and a space, in insertion order. *)
Definition __repr__ (self : t) : string :=
  if negb (valid self) then "<Invalid object - already freed>"
  else
    "{" ++ String.concat ", "
             (map (fun entry : Z * AudioDevice.t =>
                     str_of_int (fst entry) ++ ": " ++ AudioDevice.__repr__ (snd entry))
                  (odict.items (user_device_map self)))
        ++ "}".
End AudioDevices.

(** ** The media library ([medialogic/media_library.py]) *)

(** [k in d] for a [dict] that is only looked up. *)
Definition dict_in `{Countable K} {V} (k : K) (d : gmap K V) : bool :=
  match d !! k with
  | Some _ => true
  | None => false
  end.

(** [_check_file_exists]: [isfile] is [os.path.isfile]. *)
Definition _check_file_exists (isfile : string -> bool) (song_uri : string)
  : result unit :=
  if isfile song_uri then Ok tt else Raise NotFoundException.

(** A value of a primitive (what [json.load] returns and [json.dump]
    takes), as far as the code looks at it: whether it is a [str], a [float]
    (the 64 bits of the double) or anything else, and the [text] that [str()]
    makes of it. *)
Inductive pyobj : Type :=
| PyStr (s : string)
| PyFloat (bits : Z) (text : string)
| PyObject (text : string).

Definition py_str (o : pyobj) : string :=
  match o with
  | PyStr s => s
  | PyFloat _ text => text
  | PyObject text => text
  end.

(** The [float] [1.0]. *)
Definition float_1_0 : pyobj := PyFloat 0x3FF0000000000000 "1.0".

Definition VERSION_FIELD : string := "version".

Module Song.
Record t : Type := { alias : string; uri : string; description : string }.

Definition __init__ (isfile : string -> bool)
    (alias uri description : string) : result t :=
  result_bind (_check_file_exists isfile uri) (fun _ =>
  Ok {| alias := alias; uri := uri; description := description |}).

Definition VERSION : pyobj := float_1_0.
Definition ALIAS_FIELD : string := "alias".
Definition URI_FIELD : string := "uri".
Definition DESCRIPTION_FIELD : string := "description".

(** [primitive[key]] *)
Definition getitem (primitive : gmap string pyobj) (key : string) : outcome pyobj :=
  match primitive !! key with
  | Some o => Returns o
  | None => Raises (Exn KeyError)
  end.

Definition parse_v1 (isfile : string -> bool) (primitive : gmap string pyobj)
  : outcome t :=
  match getitem primitive "alias" with
  | Raises e => Raises e
  | Returns alias =>
      match getitem primitive "uri" with
      | Raises e => Raises e
      | Returns uri =>
          let description := default (PyStr "") (primitive !! "description") in
          outcome_of (__init__ isfile (py_str alias) (py_str uri) (py_str description))
      end
  end.

(** [description] is a [str] by its type, so it is never [None]. *)
Definition to_primitive (self : t) : gmap string pyobj :=
  <[DESCRIPTION_FIELD := PyStr (description self)]>
    (<[URI_FIELD := PyStr (uri self)]>
       (<[ALIAS_FIELD := PyStr (alias self)]>
          {[VERSION_FIELD := VERSION]})).

(** [SONG_VERSION_PARSER[version]] for a [float]: the one key is [1.0], and
    the one [float] equal to it has its bits. *)
Definition SONG_VERSION_PARSER (isfile : string -> bool) (bits : Z)
  : outcome (gmap string pyobj -> outcome t) :=
  if Z.eqb bits 0x3FF0000000000000 then Returns (parse_v1 isfile)
  else Raises (Exn KeyError).

Definition from_primitive (isfile : string -> bool) (primitive : gmap string pyobj)
  : outcome t :=
  match getitem primitive VERSION_FIELD with
  | Raises e => Raises e
  | Returns version =>
      match version with
      | PyFloat bits _ =>
          match SONG_VERSION_PARSER isfile bits with
          | Raises e => Raises e
          | Returns parse => parse primitive
          end
      | _ => Raises BadFormatException
      end
  end.
End Song.

Module MediaLibrary.
Record t : Type := {
  song_map : gmap string Song.t;
  playlists : gmap string (list string)
}.

Definition __init__ : t := {| song_map := ∅; playlists := ∅ |}.

Definition get_song (isfile : string -> bool) (self : t) (song_alias : string)
  : result Song.t :=
  match song_map self !! song_alias with
  | None => Raise NotFoundException
  | Some song => Song.__init__ isfile (Song.alias song) (Song.uri song) ""
  end.

Definition get_playlist (self : t) (playlist_name : string)
  : result (list string) :=
  match playlists self !! playlist_name with
  | None => Raise NotFoundException
  | Some songs => Ok songs
  end.

Definition get (isfile : string -> bool) (self : t) (name : string)
  : result (list string) :=
  if dict_in name (playlists self) then
    result_bind (get_playlist self name) (fun songs =>
    result_map
      (fun song => result_bind (get_song isfile self song) (fun s => Ok (Song.uri s)))
      songs)
  else if negb (dict_in name (playlists self))
          && negb (dict_in name (song_map self)) then
    Raise NotFoundException
  else
    result_bind (get_song isfile self name) (fun s => Ok [Song.uri s]).

Definition set_song_map (m : gmap string Song.t) (self : t) : t :=
  {| song_map := m; playlists := playlists self |}.

Definition set_playlists (m : gmap string (list string)) (self : t) : t :=
  {| song_map := song_map self; playlists := m |}.

(** The methods below write [self]: they return what they return or raise
    together with [self] as they leave it. [song] is a [Song] and
    [song_alias] a [str] by their types, so the two [isinstance] checks
    never raise. *)
Definition add_song (song : Song.t) (expect_overwrite : bool) (self : t)
  : outcome unit * t :=
  if dict_in (Song.alias song) (song_map self) && negb expect_overwrite then
    (Raises AlreadyExistsException, self)
  else
    (Returns tt, set_song_map (<[Song.alias song := song]> (song_map self)) self).

Definition list_songs (self : t) : list Song.t :=
  sorted Song.alias (snd <$> map_to_list (song_map self)).

Definition list_playlists (self : t) : list (string * list string) :=
  sorted fst (map_to_list (playlists self)).

Definition create_playlist (playlist_name : string) (expect_overwrite : bool)
    (self : t) : outcome unit * t :=
  if String.eqb playlist_name "" then (Raises IllegalArgument, self)
  else
    let existing_playlist := playlists self !! playlist_name in
    match existing_playlist with
    | Some _ =>
        if negb expect_overwrite then (Raises AlreadyExistsException, self)
        else (Returns tt, set_playlists (<[playlist_name := []]> (playlists self)) self)
    | None =>
        (Returns tt, set_playlists (<[playlist_name := []]> (playlists self)) self)
    end.

Definition add_song_to_playlist (song_alias playlist_name : string) (self : t)
  : outcome unit * t :=
  match playlists self !! playlist_name with
  | None => (Raises (Exn NotFoundException), self)
  | Some songs =>
      if negb (dict_in song_alias (song_map self)) then
        (Raises (Exn NotFoundException), self)
      else
        (Returns tt,
         set_playlists (<[playlist_name := (songs ++ [song_alias])%list]> (playlists self))
           self)
  end.

(** [get_playlist] returns a copy, and it is the copy [remove] writes. *)
Definition remove_from_playlist (song_alias playlist_name : string) (self : t)
  : outcome unit * t :=
  match get_playlist self playlist_name with
  | Raise e => (Raises (Exn e), self)
  | Ok copy =>
      match list_remove song_alias copy with
      | Raises e => (Raises e, self)
      | Returns _ => (Returns tt, self)
      end
  end.
End MediaLibrary.

(** ** The scheduling tree ([medialogic/oracles.py])

    Oracle objects live in an object store; a reference ([loc]) is the
    position of the object in the store, so that two fields holding the same
    reference see each other's mutations. *)

Abbreviation loc := nat (only parsing).

(** Modelled from the spec: [medialogic/oracles.py] is missing. The five
    oracle classes with the state section 3 gives each: a playlist and its
    cursor; a repeated sequence, its cursor and the repeats left ([None] for
    ever); a chain of children and its cursor; the switch and its active
    target; the interrupt queue and its fallback. A constructor leaves the
    cursor at 0, the chain and the interrupt queue empty and the switch
    without a target. *)
Inductive Oracle : Type :=
| PlaylistOracle (songs : list string) (cursor : nat)
| RepeatingOracle (songs : list string) (cursor : nat) (times : option nat)
| ChainOracle (children : list loc) (cursor : nat)
| SwitchOracle (active : option loc)
| InterruptOracle (pending : list string) (fallback : loc).

Module oracles.
Abbreviation store := (list Oracle) (only parsing).

(** Constructing an object: it gets the next free reference. *)
Definition new (o : Oracle) (h : store) : loc * store :=
  (length h, (h ++ [o])%list).

(** Modelled from the spec: [SwitchOracle.set_oracle] is missing. The
    active reference is replaced wholesale. *)
Definition set_oracle (self target : loc) (h : store) : result store :=
  match h !! self with
  | Some (SwitchOracle _) => Ok (<[self := SwitchOracle (Some target)]> h)
  | _ => Raise AttributeError
  end.

(** Modelled from the spec: [ChainOracle.add] is missing. The child is
    appended at the tail, the cursor stays. *)
Definition add (self child : loc) (h : store) : result store :=
  match h !! self with
  | Some (ChainOracle children cursor) =>
      Ok (<[self := ChainOracle (children ++ [child]) cursor]> h)
  | _ => Raise AttributeError
  end.

(** Modelled from the spec: [InterruptOracle.interrupt] is missing. The
    items are enqueued behind those still pending. *)
Definition interrupt (self : loc) (items : list string) (h : store)
  : result store :=
  match h !! self with
  | Some (InterruptOracle pending fallback) =>
      Ok (<[self := InterruptOracle (pending ++ items) fallback]> h)
  | _ => Raise AttributeError
  end.

(** Modelled from the spec: [InterruptOracle.clear_interrupt] is missing.
    The queue is emptied, the fallback is not touched. *)
Definition clear_interrupt (self : loc) (h : store) : result store :=
  match h !! self with
  | Some (InterruptOracle _ fallback) =>
      Ok (<[self := InterruptOracle [] fallback]> h)
  | _ => Raise AttributeError
  end.

(** Modelled from the spec: the [advance] operation of every oracle is
    missing. [Some (item, h')] is a call that returned [item] ([None] when
    exhausted); the outer [None] is a call that ran out of [fuel] or met a
    reference that is not in the store. Each delegation and each step of
    a chain over an exhausted child takes one unit of fuel. *)
Fixpoint advance (fuel : nat) (self : loc) (h : store)
  : option (option string * store) :=
  match fuel with
  | O => None
  | S fuel =>
      match h !! self with
      | None => None
      | Some (PlaylistOracle songs cursor) =>
          match songs !! cursor with
          | Some item => Some (Some item, <[self := PlaylistOracle songs (S cursor)]> h)
          | None => Some (None, h)
          end
      | Some (RepeatingOracle songs cursor times) =>
          match songs !! cursor with
          | Some item =>
              Some (Some item, <[self := RepeatingOracle songs (S cursor) times]> h)
          | None =>
              match songs !! O, times with
              | None, _ => Some (None, h)
              | Some item, None =>
                  Some (Some item, <[self := RepeatingOracle songs 1 None]> h)
              | Some item, Some (S n) =>
                  Some (Some item, <[self := RepeatingOracle songs 1 (Some n)]> h)
              | Some _, Some O => Some (None, h)
              end
          end
      | Some (ChainOracle children cursor) =>
          match children !! cursor with
          | None => Some (None, h)
          | Some child =>
              match advance fuel child h with
              | None => None
              | Some (Some item, h') => Some (Some item, h')
              | Some (None, h') =>
                  advance fuel self (<[self := ChainOracle children (S cursor)]> h')
              end
          end
      | Some (SwitchOracle active) =>
          match active with
          | None => Some (None, h)
          | Some target => advance fuel target h
          end
      | Some (InterruptOracle pending fallback) =>
          match pending with
          | item :: pending' =>
              Some (Some item, <[self := InterruptOracle pending' fallback]> h)
          | [] => advance fuel fallback h
          end
      end
  end.

(** [n] successive [advance] calls on [self], with what each returned. *)
Fixpoint advance_n (fuel n : nat) (self : loc) (h : store)
  : option (list (option string) * store) :=
  match n with
  | O => Some ([], h)
  | S n =>
      match advance fuel self h with
      | None => None
      | Some (item, h') =>
          match advance_n fuel n self h' with
          | None => None
          | Some (items, h'') => Some (item :: items, h'')
          end
      end
  end.
End oracles.

Module Player.
(** Modelled from the spec: [medialogic/player.py] is missing. The two
    requests the controller's scheduling methods make of the player:
    [play_oracle(root)] hands it the root to pull from, [next_song()] tells
    it to fetch a new item now. *)
Inductive request : Type :=
| play_oracle (root : loc)
| next_song.

(** Modelled from the spec: [medialogic/player.py] is missing. The player
    is the opaque collaborator of section 1; what the controller asks of it
    is recorded in the order asked. *)
Record t : Type := { requests : list request }.

Definition __init__ : t := {| requests := [] |}.

Definition ask (r : request) (self : t) : t :=
  {| requests := (requests self ++ [r])%list |}.
End Player.

(** ** The flags ([common/flags.py]) *)

Module flags.
Section argparse.
(** [argparse] belongs to Python, not to the repository: a parser is what
    [ArgumentParser()] returns and the registered functions write, a value
    is what a parsed flag holds, [parse_args parser args] is
    [parser.parse_args(args=args)], which with [args=None] reads the command
    line, and [add_argument kwargs parser] is [parser.add_argument] called
    with the keyword arguments [kwargs]. *)
Variables (parser value kwargs : Type).
Variable ArgumentParser : parser.
Variable parse_args : parser -> option (list string) -> outcome (gmap string value).
Variable add_argument : kwargs -> parser -> outcome parser.

(** [_FlagNamespaceContainer] *)
Record t : Type := {
  _flag_namespace : option (gmap string value);
  flag_function_registry : list (parser -> outcome parser);
  _override_flags : option (list string)
}.

Definition __init__ : t :=
  {| _flag_namespace := None; flag_function_registry := []; _override_flags := None |}.

(** Python calls [__getattr__] for the names that are not attributes of
    the object itself, the flags. *)
Definition __getattr__ (name : string) (self : t) : outcome value :=
  match _flag_namespace self with
  | None => Raises (Exn AttributeError)
  | Some namespace =>
      match namespace !! name with
      | None => Raises (Exn AttributeError)
      | Some v => Returns v
      end
  end.

(** [for fn in self.flag_function_registry: fn(parser)] *)
Fixpoint call_all (fns : list (parser -> outcome parser)) (p : parser)
  : outcome parser :=
  match fns with
  | [] => Returns p
  | fn :: fns' =>
      match fn p with
      | Raises e => Raises e
      | Returns p' => call_all fns' p'
      end
  end.

Definition init (self : t) : outcome unit * t :=
  match call_all (flag_function_registry self) ArgumentParser with
  | Raises e => (Raises e, self)
  | Returns p =>
      match parse_args p (_override_flags self) with
      | Raises e => (Raises e, self)
      | Returns namespace =>
          (Returns tt,
           {| _flag_namespace := Some namespace;
              flag_function_registry := flag_function_registry self;
              _override_flags := _override_flags self |})
      end
  end.

Definition register_flags (flag_fn : parser -> outcome parser) (self : t)
  : outcome unit * t :=
  match _flag_namespace self with
  | Some _ => (Raises Exception, self)
  | None =>
      (Returns tt,
       {| _flag_namespace := _flag_namespace self;
          flag_function_registry := (flag_function_registry self ++ [flag_fn])%list;
          _override_flags := _override_flags self |})
  end.

Definition register_flag (kw : kwargs) (self : t) : outcome unit * t :=
  register_flags (add_argument kw) self.

Definition reset (self : t) : t :=
  {| _flag_namespace := None; flag_function_registry := []; _override_flags := Some [] |}.
End argparse.

Arguments t : clear implicits.
Arguments _flag_namespace {parser value} _.
Arguments flag_function_registry {parser value} _.
Arguments _override_flags {parser value} _.
Arguments __init__ {parser value}.
Arguments __getattr__ {parser value} name self.
Arguments call_all {parser} fns p.
Arguments init {parser value} ArgumentParser parse_args self.
Arguments register_flags {parser value} flag_fn self.
Arguments register_flag {parser value kwargs} add_argument kw self.
Arguments reset {parser value} self.
End flags.

(** ** The controller ([medialogic/controller.py]) *)

(** Everything a controller's methods reach besides [self]: the oracle
    objects, the native library and the file system. *)
Record World : Type := {
  objects : oracles.store;
  native : libvlc;
  os_path_isfile : string -> bool
}.

(** Statements that read and write a state [S] and may raise; what was
    written before a [raise] stays written. *)
Definition M (S A : Type) : Type := S -> result A * S.

Definition ret {S A} (a : A) : M S A := fun s => (Ok a, s).

Definition bind {S A B} (m : M S A) (k : A -> M S B) : M S B :=
  fun s =>
    match m s with
    | (Ok a, s') => k a s'
    | (Raise e, s') => (Raise e, s')
    end.

Definition gets {S A} (f : S -> A) : M S A := fun s => (Ok (f s), s).

Definition modify {S} (f : S -> S) : M S unit := fun s => (Ok tt, f s).

(** A call that raises without writing. *)
Definition try {S A} (f : S -> result A) : M S A := fun s => (f s, s).

Notation "x <- m ;; k" := (bind m (fun x => k))
  (at level 100, m at next level, right associativity).
Notation "m ;; k" := (bind m (fun _ => k))
  (at level 100, right associativity).

Module Controller.
Record t : Type := {
  media_library : MediaLibrary.t;
  vlc_player : Player.t;
  devices : AudioDevices.t;
  switch_oracle : loc;
  queueing_oracle : loc;
  interrupt_oracle : loc
}.

Definition St : Type := t * World.

(** *** Attribute writes and calls on the objects [self] refers to *)

Definition set_queueing_oracle (q : loc) (s : St) : St :=
  ({| media_library := media_library (fst s);
      vlc_player := vlc_player (fst s);
      devices := devices (fst s);
      switch_oracle := switch_oracle (fst s);
      queueing_oracle := q;
      interrupt_oracle := interrupt_oracle (fst s) |}, snd s).

Definition set_devices (d : AudioDevices.t) (s : St) : St :=
  ({| media_library := media_library (fst s);
      vlc_player := vlc_player (fst s);
      devices := d;
      switch_oracle := switch_oracle (fst s);
      queueing_oracle := queueing_oracle (fst s);
      interrupt_oracle := interrupt_oracle (fst s) |}, snd s).

Definition set_vlc_player (p : Player.t) (s : St) : St :=
  ({| media_library := media_library (fst s);
      vlc_player := p;
      devices := devices (fst s);
      switch_oracle := switch_oracle (fst s);
      queueing_oracle := queueing_oracle (fst s);
      interrupt_oracle := interrupt_oracle (fst s) |}, snd s).

Definition set_objects (h : oracles.store) (w : World) : World :=
  {| objects := h; native := native w; os_path_isfile := os_path_isfile w |}.

Definition set_native (v : libvlc) (w : World) : World :=
  {| objects := objects w; native := v; os_path_isfile := os_path_isfile w |}.

(** [oracles.X(...)]: a new object in the store. *)
Definition construct (o : Oracle) : M St loc :=
  fun s =>
    let (l, h) := oracles.new o (objects (snd s)) in
    (Ok l, (fst s, set_objects h (snd s))).

(** A method of an oracle object: it raises or writes the store. *)
Definition call (f : oracles.store -> result oracles.store) : M St unit :=
  fun s =>
    match f (objects (snd s)) with
    | Ok h => (Ok tt, (fst s, set_objects h (snd s)))
    | Raise e => (Raise e, s)
    end.

Definition ask_player (r : Player.request) : M St unit :=
  modify (fun s => set_vlc_player (Player.ask r (vlc_player (fst s))) s).

Definition media_library_get (name : string) : M St (list string) :=
  try (fun s => MediaLibrary.get (os_path_isfile (snd s)) (media_library (fst s)) name).

(** *** The methods *)

Definition __init__ (media_library : option MediaLibrary.t) (w : World)
  : result t * World :=
  let media_library :=
    match media_library with
    | Some ml => ml
    | None => MediaLibrary.__init__
    end in
  let vlc_player := Player.__init__ in
  let (p, v) := libvlc_audio_output_device_enum (native w) in
  let devices := AudioDevices.__init__ p in
  let w := set_native v w in
  let (switch_oracle, h) := oracles.new (SwitchOracle None) (objects w) in
  let (queueing_oracle, h) := oracles.new (ChainOracle [] 0) h in
  let (interrupt_oracle, h) := oracles.new (InterruptOracle [] switch_oracle) h in
  match oracles.set_oracle switch_oracle queueing_oracle h with
  | Raise e => (Raise e, set_objects h w)
  | Ok h =>
      let vlc_player := Player.ask (Player.play_oracle interrupt_oracle) vlc_player in
      (Ok {| media_library := media_library;
             vlc_player := vlc_player;
             devices := devices;
             switch_oracle := switch_oracle;
             queueing_oracle := queueing_oracle;
             interrupt_oracle := interrupt_oracle |},
       set_objects h w)
  end.

Definition play (song_alias : string) : M St unit :=
  songs <- media_library_get song_alias ;;
  q <- construct (ChainOracle [] 0) ;;
  modify (set_queueing_oracle q) ;;
  sw <- gets (fun s => switch_oracle (fst s)) ;;
  q <- gets (fun s => queueing_oracle (fst s)) ;;
  call (oracles.set_oracle sw q) ;;
  q <- gets (fun s => queueing_oracle (fst s)) ;;
  p <- construct (PlaylistOracle songs 0) ;;
  call (oracles.add q p) ;;
  i <- gets (fun s => interrupt_oracle (fst s)) ;;
  call (oracles.clear_interrupt i) ;;
  ask_player Player.next_song.

Definition queue (alias : string) : M St unit :=
  songs <- media_library_get alias ;;
  q <- gets (fun s => queueing_oracle (fst s)) ;;
  p <- construct (PlaylistOracle songs 0) ;;
  call (oracles.add q p).

Definition queue_repeat (alias : string) (times : option nat) : M St unit :=
  songs <- media_library_get alias ;;
  q <- gets (fun s => queueing_oracle (fst s)) ;;
  p <- construct (RepeatingOracle songs 0 times) ;;
  call (oracles.add q p).

(** [list_devices], statement by statement: [self.devices.free()], the
    right-hand side [AudioDevices(vlc.libvlc_audio_output_device_enum(..))],
    the assignment to [self.devices], and [str(self.devices)]. *)
Definition list_devices_free (s : St) : St :=
  let (d, v) := AudioDevices.free (devices (fst s)) (native (snd s)) in
  set_devices d (fst s, set_native v (snd s)).

Definition list_devices_enum (s : St) : AudioDevices.t * St :=
  let (p, v) := libvlc_audio_output_device_enum (native (snd s)) in
  (AudioDevices.__init__ p, (fst s, set_native v (snd s))).

Definition list_devices : M St string :=
  modify list_devices_free ;;
  d <- (fun s => let (d, s') := list_devices_enum s in (Ok d, s')) ;;
  modify (set_devices d) ;;
  try (fun s => AudioDevices.__str__ (devices (fst s))).

(** The states [list_devices] goes through, the initial one first. *)
Definition list_devices_states (s : St) : list St :=
  let s1 := list_devices_free s in
  let (d, s2) := list_devices_enum s1 in
  [s; s1; s2; set_devices d s2].

(** [set_device]: [Player.set_device] is missing, so what this returns is
    the device the player is handed, the [contents.device] of the entry at
    [device_idx]. *)
Definition set_device (device_idx : Z) (s : St) : result string :=
  result_bind (AudioDevices.device_for_index (devices (fst s)) device_idx)
    (fun d => Ok (device (AudioDevice.contents d))).

(** [get_device]: [current] is what [mp.audio_output_device_get()] answers,
    the name of the output in use or [None]; [str(None)] is ["None"]. *)
Definition get_device (current : option string) (s : St) : result string :=
  result_bind (AudioDevices.device_from_device_name (devices (fst s)) current)
    (fun d => Ok match d with
                 | Some d => AudioDevice.__str__ d
                 | None => "None"
                 end).

(** Modelled from the spec: [controller.py] has no [interrupt] method;
    section 4.3 lists [interrupt(items)], which enqueues on the root. *)
Definition interrupt (items : list string) : M St unit :=
  i <- gets (fun s => interrupt_oracle (fst s)) ;;
  call (oracles.interrupt i items).

(** Modelled from the spec: the player ([medialogic/player.py], missing)
    pulls one item per track from the oracle [__init__] handed it, the
    root of the tree. *)
Definition advance (fuel : nat) (s : St) : option (option string * St) :=
  match oracles.advance fuel (interrupt_oracle (fst s)) (objects (snd s)) with
  | None => None
  | Some (item, h) => Some (item, (fst s, set_objects h (snd s)))
  end.

(** *** Well-formed controller states

    The tree as [__init__] wires it and every method keeps it: the root
    falls back on the switch, and the switch targets the chain that
    [self.queueing_oracle] refers to. *)
Definition wired (s : St) : Prop :=
  (exists pending,
      objects (snd s) !! interrupt_oracle (fst s)
      = Some (InterruptOracle pending (switch_oracle (fst s))))
  /\ objects (snd s) !! switch_oracle (fst s)
     = Some (SwitchOracle (Some (queueing_oracle (fst s))))
  /\ (exists children cursor,
        objects (snd s) !! queueing_oracle (fst s)
        = Some (ChainOracle children cursor)).

(** The controller's registry owns the only device list the native
    library has handed out and not got back. *)
Definition owns (s : St) : Prop :=
  live (native (snd s))
  = if AudioDevices.valid (devices (fst s))
    then head_addr (AudioDevices.device_list_ptr (devices (fst s)))
    else [].
End Controller.

(** ** Definitions the statements use *)

(** [n] successive [free()] calls on one registry. *)
Fixpoint free_n (n : nat) (self : AudioDevices.t) (vlc : libvlc)
  : AudioDevices.t * libvlc :=
  match n with
  | O => (self, vlc)
  | S n => let (self', vlc') := AudioDevices.free self vlc in free_n n self' vlc'
  end.

(** The line of the listing for the device at [index]: a tab, the index,
    a colon and the description. *)
Definition listing_line (index : nat) (c : audio_output_device_t) : string :=
  TAB ++ str_of_int (Z.of_nat index) ++ ": " ++ description c.

(** The store [play] leaves behind: a new empty chain and a new playlist
    behind the objects of [h], the switch [sw] retargeted, the playlist added
    to the chain, the interrupt queue of [i] emptied. *)
Definition play_store (h : oracles.store) (sw i : loc) (songs : list string)
  : oracles.store :=
  <[i := InterruptOracle [] sw]>
    (<[length h := ChainOracle [S (length h)] 0]>
       (<[sw := SwitchOracle (Some (length h))]> (h ++ [ChainOracle [] 0])
        ++ [PlaylistOracle songs 0]))%list.

(** Two versions of an object of the same class with the same references to
    other objects; cursors, counters and pending items may differ. *)
Definition same_links (o o' : Oracle) : Prop :=
  match o, o' with
  | PlaylistOracle songs _, PlaylistOracle songs' _ => songs = songs'
  | RepeatingOracle songs _ _, RepeatingOracle songs' _ _ => songs = songs'
  | ChainOracle children _, ChainOracle children' _ => children = children'
  | SwitchOracle active, SwitchOracle active' => active = active'
  | InterruptOracle _ fallback, InterruptOracle _ fallback' => fallback = fallback'
  | _, _ => False
  end.

(** What surrounds the controller may change between two calls: the
    devices the platform reports, the files that exist, the library. *)
Definition change_env (hw : list (string * string)) (isfile : string -> bool)
    (ml : MediaLibrary.t) (s : Controller.St) : Controller.St :=
  ({| Controller.media_library := ml;
      Controller.vlc_player := Controller.vlc_player (fst s);
      Controller.devices := Controller.devices (fst s);
      Controller.switch_oracle := Controller.switch_oracle (fst s);
      Controller.queueing_oracle := Controller.queueing_oracle (fst s);
      Controller.interrupt_oracle := Controller.interrupt_oracle (fst s) |},
   {| objects := objects (snd s);
      native := {| hardware := hw;
                   brk := brk (native (snd s));
                   live := live (native (snd s));
                   release_calls := release_calls (native (snd s)) |};
      os_path_isfile := isfile |}).

(** The states of a controller: the one its constructor leaves when no
    device list is out yet, and those its methods, the player's pulls and the
    surroundings lead to from there. *)
Inductive reachable : Controller.St -> Prop :=
| reach_init ml w c w' :
    live (native w) = [] ->
    Controller.__init__ ml w = (Ok c, w') ->
    reachable (c, w')
| reach_play s alias :
    reachable s -> reachable (snd (Controller.play alias s))
| reach_queue s alias :
    reachable s -> reachable (snd (Controller.queue alias s))
| reach_queue_repeat s alias times :
    reachable s -> reachable (snd (Controller.queue_repeat alias times s))
| reach_list_devices s :
    reachable s -> reachable (snd (Controller.list_devices s))
| reach_interrupt s items :
    reachable s -> reachable (snd (Controller.interrupt items s))
| reach_advance s fuel item s' :
    reachable s -> Controller.advance fuel s = Some (item, s') -> reachable s'
| reach_env s hw isfile ml :
    reachable s -> reachable (change_env hw isfile ml s).

(** A root over a switch over a chain of one playlist. *)
Definition single_playlist (h : oracles.store) (root sw q p : loc)
    (songs : list string) (j cq : nat) : Prop :=
  h !! root = Some (InterruptOracle [] sw)
  /\ h !! sw = Some (SwitchOracle (Some q))
  /\ h !! q = Some (ChainOracle [p] cq)
  /\ h !! p = Some (PlaylistOracle songs j).

(** What [n] pulls return from a tree that has [songs] left and nothing
    else: the songs in order, then nothing. *)
Fixpoint upcoming (songs : list string) (n : nat) : list (option string) :=
  match n with
  | O => []
  | S n =>
      match songs with
      | [] => None :: upcoming [] n
      | item :: songs' => Some item :: upcoming songs' n
      end
  end.

(** The last record of the list whose device name is [name]. *)
Definition last_named (name : string) (cs : list audio_output_device_t)
  : option audio_output_device_t :=
  last (filter (fun c => device c = name) cs).

(** The line of the listing for the entry of the platform's report at
    [index]. *)
Definition hardware_line (index : nat) (entry : string * string) : string :=
  TAB ++ str_of_int (Z.of_nat index) ++ ": " ++ snd entry.

(** The entry of the repr for the device at [index]. *)
Definition repr_entry (index : nat) (c : audio_output_device_t) : string :=
  str_of_int (Z.of_nat index) ++ ": " ++ description c.

(** [alias] is registered, its file exists and its uri is [u]. *)
Definition playable (isfile : string -> bool) (ml : MediaLibrary.t)
    (alias u : string) : Prop :=
  exists s, MediaLibrary.song_map ml !! alias = Some s
            /\ Song.uri s = u /\ isfile u = true.

(** Every song is stored under its own alias. *)
Definition keyed (ml : MediaLibrary.t) : Prop :=
  forall k s, MediaLibrary.song_map ml !! k = Some s -> Song.alias s = k.

(** Every alias in every playlist is a registered song. *)
Definition closed (ml : MediaLibrary.t) : Prop :=
  forall p songs a,
    MediaLibrary.playlists ml !! p = Some songs -> a ∈ songs ->
    is_Some (MediaLibrary.song_map ml !! a).

(** The libraries [MediaLibrary()] and the writing methods lead to. *)
Inductive built : MediaLibrary.t -> Prop :=
| built_init : built MediaLibrary.__init__
| built_add_song ml song expect_overwrite :
    built ml -> built (snd (MediaLibrary.add_song song expect_overwrite ml))
| built_create_playlist ml name expect_overwrite :
    built ml -> built (snd (MediaLibrary.create_playlist name expect_overwrite ml))
| built_add_song_to_playlist ml song_alias playlist_name :
    built ml ->
    built (snd (MediaLibrary.add_song_to_playlist song_alias playlist_name ml))
| built_remove_from_playlist ml song_alias playlist_name :
    built ml ->
    built (snd (MediaLibrary.remove_from_playlist song_alias playlist_name ml)).

(** [fns] registered one after the other. *)
Definition register_each {parser value : Type} (fns : list (parser -> outcome parser))
    (self : flags.t parser value) : flags.t parser value :=
  fold_left (fun c fn => snd (flags.register_flags fn c)) fns self.

(** ** Concrete inputs used by the examples *)

Definition hw3 : list (string * string) :=
  [("hw:0", "Speakers"); ("hw:1", "Headphones"); ("hdmi", "Monitor")].

Definition snap3 : AudioOutputDevice := alloc_list 16 hw3.

Definition vlc0 : libvlc :=
  {| hardware := hw3; brk := 16; live := []; release_calls := [] |}.

Definition lib0 : MediaLibrary.t :=
  {| MediaLibrary.song_map :=
       list_to_map [("s1", Song.Build_t "s1" "file:s1" "first");
                    ("s2", Song.Build_t "s2" "file:s2" "")];
     MediaLibrary.playlists := list_to_map [("mix", ["s1"; "s2"])] |}.

Definition world0 : World :=
  {| objects := []; native := vlc0; os_path_isfile := fun _ => true |}.

(** The state [Controller(lib0)] leaves behind in [world0]. *)
Definition state0 : Controller.St :=
  ({| Controller.media_library := lib0;
      Controller.vlc_player := {| Player.requests := [Player.play_oracle 2%nat] |};
      Controller.devices := AudioDevices.__init__ snap3;
      Controller.switch_oracle := 0%nat;
      Controller.queueing_oracle := 1%nat;
      Controller.interrupt_oracle := 2%nat |},
   {| objects := [SwitchOracle (Some 1%nat); ChainOracle [] 0; InterruptOracle [] 0%nat];
      native := {| hardware := hw3; brk := 19; live := [16%N]; release_calls := [] |};
      os_path_isfile := fun _ => true |}).

(** One pull of the player, when it returns. *)
Definition pull (s : Controller.St) : option string * Controller.St :=
  match Controller.advance 8 s with
  | Some r => r
  | None => (None, s)
  end.

(** A library made through the methods: two songs and a playlist of both. *)
Definition lib1 : MediaLibrary.t :=
  snd (MediaLibrary.add_song_to_playlist "s2" "mix"
    (snd (MediaLibrary.add_song_to_playlist "s1" "mix"
      (snd (MediaLibrary.create_playlist "mix" false
        (snd (MediaLibrary.add_song (Song.Build_t "s2" "file:s2" "") false
          (snd (MediaLibrary.add_song (Song.Build_t "s1" "file:s1" "first") false
                  MediaLibrary.__init__))))))))).

Definition prim0 : gmap string pyobj :=
  list_to_map [("version", float_1_0); ("alias", PyStr "s1"); ("uri", PyStr "file:s1")].

(** A toy [argparse]: a parser is the list of the flags declared so far,
    and parsing gives each of them the text ["unset"], whatever the
    arguments. *)
Definition flag_verbose (p : list string) : outcome (list string) :=
  Returns (p ++ ["verbose"])%list.

Definition flag_device (p : list string) : outcome (list string) :=
  Returns (p ++ ["device"])%list.

Definition parse_unset (p : list string) (args : option (list string))
  : outcome (gmap string string) :=
  Returns (list_to_map ((fun name => (name, "unset")) <$> p)).

(** * Properties *)

Example init_state0 : Controller.__init__ (Some lib0) world0 = (Ok (fst state0), snd state0).
Proof. reflexivity. Qed.

Example str_snap3 :
  AudioDevices.__str__ (AudioDevices.__init__ snap3)
  = Ok (NEWLINE ++ TAB ++ "0: Speakers" ++ NEWLINE ++ TAB ++ "1: Headphones"
        ++ NEWLINE ++ TAB ++ "2: Monitor").
Proof. vm_compute. reflexivity. Qed.

Example name_snap3 :
  AudioDevices.device_from_device_name (AudioDevices.__init__ snap3) (Some "hdmi")
  = Ok (Some (AudioDevice.Build_t (Struct NULL "hdmi" "Monitor"))).
Proof. vm_compute. reflexivity. Qed.

(** ** Dictionaries and enumeration *)

Lemma odict_setitem_fresh {V} (k : Z) (v : V) (d : odict.t V) :
  Forall (fun kv => fst kv < k) d -> odict.setitem k v d = (d ++ [(k, v)])%list.
Proof.
  induction 1 as [|[k' v'] d Hk _ IH]; simpl; [reflexivity|].
  simpl in Hk. destruct (Z.eqb_spec k k'); [lia|]. by rewrite IH.
Qed.

Lemma enumerate_from_keys {A} (xs : list A) (k : Z) :
  Forall (fun kv => k <= fst kv < k + Z.of_nat (length xs)) (enumerate_from k xs).
Proof.
  revert k. induction xs as [|x xs IH]; intros k; simpl; constructor.
  - simpl. lia.
  - eapply Forall_impl; [apply IH|]. intros [k' v] ?; simpl in *. lia.
Qed.

Lemma odict_fold_enumerate {V} (xs : list V) (k : Z) (d : odict.t V) :
  Forall (fun kv => fst kv < k) d ->
  fold_left (fun d kv => odict.setitem (fst kv) (snd kv) d) (enumerate_from k xs) d
  = (d ++ enumerate_from k xs)%list.
Proof.
  revert k d. induction xs as [|x xs IH]; intros k d Hd; simpl.
  - by rewrite app_nil_r.
  - rewrite odict_setitem_fresh by assumption.
    rewrite IH.
    + by rewrite <- app_assoc.
    + apply Forall_app. split.
      * eapply Forall_impl; [exact Hd|]. intros ? ?; simpl in *; lia.
      * constructor; [simpl; lia|constructor].
Qed.

Lemma odict_of_pairs_enumerate {V} (xs : list V) :
  odict.of_pairs (enumerate xs) = enumerate xs.
Proof.
  unfold odict.of_pairs, enumerate, odict.empty.
  by rewrite odict_fold_enumerate by constructor.
Qed.

Lemma odict_get_enumerate_from {V} (xs : list V) (k i : Z) :
  odict.get i (enumerate_from k xs)
  = if decide (k <= i) then xs !! Z.to_nat (i - k) else None.
Proof.
  revert k. induction xs as [|x xs IH]; intros k; simpl.
  - by destruct (decide (k <= i)).
  - destruct (Z.eqb_spec i k) as [->|Hne].
    + rewrite decide_True by lia. by rewrite Z.sub_diag.
    + rewrite IH. destruct (decide (k + 1 <= i)), (decide (k <= i)); try lia; [|done].
      replace (Z.to_nat (i - k)) with (S (Z.to_nat (i - (k + 1)))) by lia.
      reflexivity.
Qed.

Lemma enumerate_from_map {A} (f : Z * A -> string) (g : nat -> A -> string)
    (xs : list A) (k : nat) :
  (forall i x, f (Z.of_nat i, x) = g i x) ->
  map f (enumerate_from (Z.of_nat k) xs) = imap (fun i => g (k + i)%nat) xs.
Proof.
  intros Hfg. revert k. induction xs as [|x xs IH]; intros k; simpl; [reflexivity|].
  rewrite Hfg, Nat.add_0_r. f_equal.
  replace (Z.of_nat k + 1) with (Z.of_nat (S k)) by lia.
  rewrite IH. apply imap_ext. intros i y _. simpl. f_equal. lia.
Qed.

(** ** The registry is the native list, in link order *)

Lemma build_devices_loop_nodes :
  forall (p : AudioOutputDevice) (output : list AudioDevice.t),
    AudioDevices._build_devices_loop p output
    = (output ++ map AudioDevice.Build_t (nodes p))%list.
Proof.
  fix IH 1. intros [|a [n dev desc]] output; simpl.
  - by rewrite app_nil_r.
  - rewrite IH. by rewrite <- app_assoc.
Qed.

Lemma build_devices_nodes (p : AudioOutputDevice) :
  AudioDevices._build_devices p = map AudioDevice.Build_t (nodes p).
Proof. unfold AudioDevices._build_devices. by rewrite build_devices_loop_nodes. Qed.

Lemma user_device_map_init (p : AudioOutputDevice) :
  AudioDevices.user_device_map (AudioDevices.__init__ p)
  = enumerate (map AudioDevice.Build_t (nodes p)).
Proof.
  unfold AudioDevices.__init__; simpl.
  by rewrite odict_of_pairs_enumerate, build_devices_nodes.
Qed.

Lemma user_device_map_get (p : AudioOutputDevice) (i : Z) :
  odict.get i (AudioDevices.user_device_map (AudioDevices.__init__ p))
  = if decide (0 <= i)
    then AudioDevice.Build_t <$> nodes p !! Z.to_nat i
    else None.
Proof.
  rewrite user_device_map_init. unfold enumerate.
  rewrite odict_get_enumerate_from. destruct (decide (0 <= i)); [|done].
  by rewrite Z.sub_0_r, list_lookup_fmap.
Qed.

Lemma device_name_map_default (ds : list AudioDevice.t)
    (m : gmap (option string) (option AudioDevice.t)) :
  fold_left (fun m d => <[Some (device (AudioDevice.contents d)) := Some d]> m) ds m
    !! None
  = m !! None.
Proof.
  revert m. induction ds as [|d ds IH]; intros m; simpl; [reflexivity|].
  rewrite IH. by rewrite lookup_insert_ne.
Qed.

(** ** Claims about the device registry *)

(** C5: on a registry built from a native list of N records and not freed,
    [device_for_index i] returns the device wrapping the i-th record of the
    list in link order when [0 <= i < N], and raises [KeyError] for every
    other index. *)
Theorem device_for_index_native_order (p : AudioOutputDevice) (i : Z) :
  let self := AudioDevices.__init__ p in
  let N := Z.of_nat (length (nodes p)) in
  AudioDevices.valid self = true
  /\ (0 <= i < N ->
      exists c, nodes p !! Z.to_nat i = Some c
                /\ AudioDevices.device_for_index self i = Ok (AudioDevice.Build_t c))
  /\ (i < 0 \/ N <= i -> AudioDevices.device_for_index self i = Raise KeyError).
Proof.
  intros self N. split; [reflexivity|].
  unfold AudioDevices.device_for_index, odict.getitem. subst self.
  change (AudioDevices.valid (AudioDevices.__init__ p)) with true. simpl negb.
  cbv iota. rewrite user_device_map_get. split.
  - intros [H0 HN]. rewrite decide_True by assumption.
    destruct (lookup_lt_is_Some_2 (nodes p) (Z.to_nat i)) as [c Hc]; [subst N; lia|].
    exists c. by rewrite Hc.
  - intros [Hneg|Hbig].
    + by rewrite decide_False by lia.
    + destruct (decide (0 <= i)); [|reflexivity].
      rewrite (lookup_ge_None_2 (nodes p)) by (subst N; lia). reflexivity.
Qed.

Lemma device_for_index_native_order_witness :
  AudioDevices.device_for_index (AudioDevices.__init__ snap3) 1
  = Ok (AudioDevice.Build_t
          (Struct (Ptr 18 (Struct NULL "hdmi" "Monitor")) "hw:1" "Headphones"))
  /\ AudioDevices.device_for_index (AudioDevices.__init__ snap3) 3 = Raise KeyError
  /\ AudioDevices.device_for_index (AudioDevices.__init__ snap3) (-1) = Raise KeyError.
Proof.
  destruct (device_for_index_native_order snap3 1) as (_ & Hin & _).
  destruct (device_for_index_native_order snap3 3) as (_ & _ & Hbig).
  destruct (device_for_index_native_order snap3 (-1)) as (_ & _ & Hneg).
  split; [|split].
  - destruct Hin as (c & Hc & Hd); [simpl; lia|].
    simpl in Hc. injection Hc as <-. exact Hd.
  - apply Hbig. right. simpl. lia.
  - apply Hneg. left. lia.
Defined.

(** C9: on a registry built from a native list of N records and not freed,
    the listing is a newline followed by N newline-separated lines; line i
    is the index i and the description of the i-th record of the list, in
    the order the list was walked at construction. *)
Theorem str_lists_devices_in_native_order (p : AudioOutputDevice) :
  exists lines : list string,
    AudioDevices.__str__ (AudioDevices.__init__ p)
    = Ok (NEWLINE ++ String.concat NEWLINE lines)
    /\ length lines = length (nodes p)
    /\ forall (i : nat) c, nodes p !! i = Some c -> lines !! i = Some (listing_line i c).
Proof.
  exists (imap listing_line (nodes p)). split; [|split].
  - unfold AudioDevices.__str__.
    change (AudioDevices.valid (AudioDevices.__init__ p)) with true. simpl negb.
    cbv iota. rewrite user_device_map_init. unfold odict.items, enumerate.
    rewrite (enumerate_from_map _
               (fun i d => listing_line i (AudioDevice.contents d)) _ 0)
      by reflexivity.
    simpl. by rewrite imap_fmap.
  - apply length_imap.
  - intros i c Hc. by rewrite list_lookup_imap, Hc.
Qed.

Lemma str_lists_devices_in_native_order_witness :
  exists lines : list string,
    AudioDevices.__str__ (AudioDevices.__init__ snap3)
    = Ok (NEWLINE ++ String.concat NEWLINE lines)
    /\ length lines = 3%nat
    /\ lines !! 2%nat = Some (TAB ++ "2: Monitor").
Proof.
  destruct (str_lists_devices_in_native_order snap3) as (lines & Hstr & Hlen & Hline).
  exists lines. split; [exact Hstr|]. split; [exact Hlen|].
  apply (Hline 2%nat (Struct NULL "hdmi" "Monitor")). reflexivity.
Defined.

(** C6, as the code has it: on a registry built from a non-empty native
    list, [device_from_device_name None] (the absent name) returns the
    synthetic default, which is the device [device_for_index 0] returns,
    the one wrapping the first record of the list. *)
Theorem default_device_is_index_0 (p : AudioOutputDevice) :
  nodes p <> [] ->
  exists d0 : AudioDevice.t,
    AudioDevices.device_from_device_name (AudioDevices.__init__ p) None = Ok (Some d0)
    /\ AudioDevices.device_for_index (AudioDevices.__init__ p) 0 = Ok d0
    /\ Some (AudioDevice.contents d0) = head (nodes p).
Proof.
  intros Hne. destruct (nodes p) as [|c cs] eqn:Hp; [done|].
  exists (AudioDevice.Build_t c). split; [|split; [|reflexivity]].
  - unfold AudioDevices.device_from_device_name.
    unfold AudioDevices.__init__ at 1. simpl AudioDevices.device_name_map.
    rewrite device_name_map_default, lookup_singleton_eq.
    pose proof (user_device_map_get p 0) as Hget.
    unfold AudioDevices.__init__ in Hget. simpl in Hget. rewrite Hget.
    by rewrite Hp.
  - unfold AudioDevices.device_for_index, odict.getitem.
    change (AudioDevices.valid (AudioDevices.__init__ p)) with true. simpl negb.
    cbv iota. rewrite user_device_map_get. by rewrite Hp.
Qed.

Lemma default_device_is_index_0_witness :
  exists d0 : AudioDevice.t,
    AudioDevices.device_from_device_name (AudioDevices.__init__ snap3) None = Ok (Some d0)
    /\ AudioDevices.device_for_index (AudioDevices.__init__ snap3) 0 = Ok d0
    /\ Some (AudioDevice.contents d0) = head (nodes snap3).
Proof. apply (default_device_is_index_0 snap3). discriminate. Defined.

(** C6, as stated, fails: the empty name is looked up like any other name,
    and on [snap3], where no device is named [""], it raises [KeyError]
    instead of returning the device at index 0. *)
Lemma empty_name_is_not_default :
  nodes snap3 <> []
  /\ AudioDevices.device_from_device_name (AudioDevices.__init__ snap3) (Some "")
     = Raise KeyError
  /\ ~ (exists d0 : AudioDevice.t,
          AudioDevices.device_from_device_name (AudioDevices.__init__ snap3) (Some "")
          = Ok (Some d0)
          /\ AudioDevices.device_for_index (AudioDevices.__init__ snap3) 0 = Ok d0).
Proof.
  assert (AudioDevices.device_from_device_name (AudioDevices.__init__ snap3) (Some "")
          = Raise KeyError) as Hraise by (vm_compute; reflexivity).
  split; [discriminate|]. split; [exact Hraise|].
  intros (d0 & Hd & _). rewrite Hraise in Hd. discriminate.
Qed.

(** ** Releasing the registry *)

Lemma free_invalid (self : AudioDevices.t) (vlc : libvlc) :
  AudioDevices.valid (fst (AudioDevices.free self vlc)) = false.
Proof.
  unfold AudioDevices.free. destruct (AudioDevices.valid self) eqn:Hv; simpl; done.
Qed.

Lemma free_n_of_invalid (n : nat) (self : AudioDevices.t) (vlc : libvlc) :
  AudioDevices.valid self = false -> free_n n self vlc = (self, vlc).
Proof.
  intros Hv. induction n as [|n IH]; simpl; [reflexivity|].
  unfold AudioDevices.free. by rewrite Hv.
Qed.

Lemma free_n_once (n : nat) (self : AudioDevices.t) (vlc : libvlc) :
  free_n (S n) self vlc = AudioDevices.free self vlc.
Proof.
  simpl. pose proof (free_invalid self vlc) as Hv.
  destruct (AudioDevices.free self vlc) as [self' vlc']. simpl in Hv.
  by apply free_n_of_invalid.
Qed.

(** C8: any number of [free()] calls after the first changes nothing, the
    registry is invalid from the first call on, and over [n] calls the native
    release is called once, on the registry's own list, when the registry was
    valid and [n >= 1], and not at all otherwise. *)
Theorem free_idempotent (self : AudioDevices.t) (vlc : libvlc) (n : nat) :
  free_n (S n) self vlc = AudioDevices.free self vlc
  /\ AudioDevices.valid (fst (free_n (S n) self vlc)) = false
  /\ release_calls (snd (free_n n self vlc))
     = (release_calls vlc
        ++ if AudioDevices.valid self && (0 <? n)%nat
           then [AudioDevices.device_list_ptr self] else [])%list.
Proof.
  split; [apply free_n_once|]. split; [rewrite free_n_once; apply free_invalid|].
  destruct n as [|n].
  - simpl. by rewrite andb_false_r, app_nil_r.
  - rewrite free_n_once. unfold AudioDevices.free.
    destruct (AudioDevices.valid self); simpl; [reflexivity|by rewrite app_nil_r].
Qed.

(** C3, as the code has it: once [free()] has been called, whatever the
    number of calls, [device_for_index] raises [UseAfterFreeException] for
    every index, and the listing is the fixed text [FREED_ERROR_STRING]
    (returned, not raised) instead of the devices. *)
Theorem accessors_after_free (self : AudioDevices.t) (vlc : libvlc) (n : nat) (i : Z) :
  let self' := fst (free_n (S n) self vlc) in
  AudioDevices.device_for_index self' i = Raise UseAfterFreeException
  /\ AudioDevices.__str__ self' = Ok FREED_ERROR_STRING.
Proof.
  intros self'.
  assert (AudioDevices.valid self' = false) as Hv
    by (subst self'; rewrite free_n_once; apply free_invalid).
  unfold AudioDevices.device_for_index, AudioDevices.__str__. by rewrite Hv.
Qed.

(** C3, as stated, fails: on the freed registry of [snap3] the listing
    returns a string and [device_from_device_name] returns the default
    device; neither raises. *)
Lemma accessors_after_free_not_all_raise :
  let self' := fst (AudioDevices.free (AudioDevices.__init__ snap3) vlc0) in
  AudioDevices.valid self' = false
  /\ AudioDevices.__str__ self' = Ok FREED_ERROR_STRING
  /\ AudioDevices.device_from_device_name self' None
     = Ok (Some (AudioDevice.Build_t
                   (Struct (Ptr 17 (Struct (Ptr 18 (Struct NULL "hdmi" "Monitor"))
                                      "hw:1" "Headphones"))
                      "hw:0" "Speakers")))
  /\ ~ (AudioDevices.device_for_index self' 0 = Raise UseAfterFreeException
        /\ AudioDevices.device_from_device_name self' None = Raise UseAfterFreeException
        /\ AudioDevices.__str__ self' = Raise UseAfterFreeException).
Proof.
  intros self'.
  assert (AudioDevices.__str__ self' = Ok FREED_ERROR_STRING) as Hstr by reflexivity.
  split; [reflexivity|]. split; [exact Hstr|]. split; [vm_compute; reflexivity|].
  intros (_ & _ & Hraise). rewrite Hstr in Hraise. discriminate.
Qed.

Local Open Scope list_scope.
Local Open Scope nat_scope.

(** ** Oracle methods on objects of the right class *)

Lemma set_oracle_ok (h : oracles.store) (self target : loc) active :
  h !! self = Some (SwitchOracle active) ->
  oracles.set_oracle self target h = Ok (<[self := SwitchOracle (Some target)]> h).
Proof. intros H. unfold oracles.set_oracle. by rewrite H. Qed.

Lemma add_ok (h : oracles.store) (self child : loc) children cursor :
  h !! self = Some (ChainOracle children cursor) ->
  oracles.add self child h
  = Ok (<[self := ChainOracle (children ++ [child])%list cursor]> h).
Proof. intros H. unfold oracles.add. by rewrite H. Qed.

Lemma clear_interrupt_ok (h : oracles.store) (self : loc) pending fallback :
  h !! self = Some (InterruptOracle pending fallback) ->
  oracles.clear_interrupt self h = Ok (<[self := InterruptOracle [] fallback]> h).
Proof. intros H. unfold oracles.clear_interrupt. by rewrite H. Qed.

Lemma interrupt_ok (h : oracles.store) (self : loc) items pending fallback :
  h !! self = Some (InterruptOracle pending fallback) ->
  oracles.interrupt self items h
  = Ok (<[self := InterruptOracle (pending ++ items)%list fallback]> h).
Proof. intros H. unfold oracles.interrupt. by rewrite H. Qed.

(** ** The media library *)

Lemma get_unregistered (isfile : string -> bool) (ml : MediaLibrary.t) (name : string) :
  MediaLibrary.playlists ml !! name = None ->
  MediaLibrary.song_map ml !! name = None ->
  MediaLibrary.get isfile ml name = Raise NotFoundException.
Proof. intros Hp Hs. unfold MediaLibrary.get, dict_in. by rewrite Hp, Hs. Qed.

Example get_playlist_mix : MediaLibrary.get (fun _ => true) lib0 "mix" = Ok ["file:s1"; "file:s2"].
Proof. vm_compute. reflexivity. Qed.

Example get_song_s2 : MediaLibrary.get (fun _ => true) lib0 "s2" = Ok ["file:s2"].
Proof. vm_compute. reflexivity. Qed.

Example get_missing_file :
  MediaLibrary.get (fun uri => negb (String.eqb uri "file:s2")) lib0 "mix"
  = Raise NotFoundException.
Proof. vm_compute. reflexivity. Qed.

(** ** [play], [queue] and [queue_repeat] *)

Lemma play_runs (s : Controller.St) (alias : string) (songs : list string) :
  Controller.wired s ->
  MediaLibrary.get (os_path_isfile (snd s)) (Controller.media_library (fst s)) alias
  = Ok songs ->
  Controller.play alias s
  = (Ok tt,
     (fst (Controller.set_vlc_player
             (Player.ask Player.next_song (Controller.vlc_player (fst s)))
             (Controller.set_queueing_oracle (length (objects (snd s))) s)),
      Controller.set_objects
        (play_store (objects (snd s)) (Controller.switch_oracle (fst s))
           (Controller.interrupt_oracle (fst s)) songs) (snd s))).
Proof.
  intros ((pending & Hi) & Hsw & _) Hget.
  destruct s as [c w]. simpl in *.
  pose proof (lookup_lt_Some _ _ _ Hi) as Hilt.
  pose proof (lookup_lt_Some _ _ _ Hsw) as Hswlt.
  unfold Controller.play, bind, Controller.media_library_get, try. simpl.
  rewrite Hget.
  unfold Controller.construct, gets, modify, Controller.call, oracles.new. simpl.
  rewrite (set_oracle_ok _ _ _ _ (lookup_app_l_Some _ _ _ _ Hsw)). simpl.
  rewrite (add_ok _ _ _ [] 0%nat).
  2:{ rewrite lookup_app_l by (rewrite length_insert, length_app; simpl; lia).
      rewrite list_lookup_insert_ne by lia. by apply list_lookup_middle. }
  simpl. rewrite (clear_interrupt_ok _ _ pending (Controller.switch_oracle c)).
  2:{ rewrite list_lookup_insert_ne by lia.
      rewrite lookup_app_l by (rewrite length_insert, length_app; simpl; lia).
      destruct (decide (Controller.switch_oracle c = Controller.interrupt_oracle c))
        as [E|E].
      - rewrite E in Hsw. congruence.
      - rewrite list_lookup_insert_ne by done. by apply lookup_app_l_Some. }
  simpl. unfold Controller.ask_player, modify, play_store. simpl.
  rewrite length_insert, length_app. simpl. rewrite Nat.add_1_r. reflexivity.
Qed.

Lemma play_store_lookups (h : oracles.store) (sw i : loc) (songs pending : list string)
    (active : option loc) :
  h !! i = Some (InterruptOracle pending sw) ->
  h !! sw = Some (SwitchOracle active) ->
  let h' := play_store h sw i songs in
  h' !! length h = Some (ChainOracle [S (length h)] 0)
  /\ h' !! S (length h) = Some (PlaylistOracle songs 0)
  /\ h' !! sw = Some (SwitchOracle (Some (length h)))
  /\ h' !! i = Some (InterruptOracle [] sw)
  /\ forall l, l <> sw -> l <> i -> (l < length h)%nat -> h' !! l = h !! l.
Proof.
  intros Hi Hsw h'.
  pose proof (lookup_lt_Some _ _ _ Hi) as Hilt.
  pose proof (lookup_lt_Some _ _ _ Hsw) as Hswlt.
  assert (sw <> i) as Hne by (intros ->; congruence).
  assert (length (<[sw := SwitchOracle (Some (length h))]> (h ++ [ChainOracle [] 0]))
          = S (length h)) as Hlen
    by (rewrite length_insert, length_app; simpl; lia).
  subst h'. unfold play_store. repeat split.
  - rewrite list_lookup_insert_ne by lia. apply list_lookup_insert_eq.
    rewrite length_app, Hlen. simpl. lia.
  - rewrite !list_lookup_insert_ne by lia. rewrite <- Hlen at 1.
    by apply list_lookup_middle.
  - rewrite !list_lookup_insert_ne by lia.
    rewrite lookup_app_l by lia. apply list_lookup_insert_eq.
    rewrite length_app. simpl. lia.
  - apply list_lookup_insert_eq.
    rewrite length_insert, length_app, Hlen. simpl. lia.
  - intros l Hl1 Hl2 Hlt. rewrite !list_lookup_insert_ne by lia.
    rewrite lookup_app_l by lia. rewrite list_lookup_insert_ne by lia.
    by rewrite lookup_app_l by lia.
Qed.

Lemma wired_state0 : Controller.wired state0.
Proof.
  split; [exists []; reflexivity|]. split; [reflexivity|].
  exists [], 0. reflexivity.
Defined.

(** C1: when the library resolves the alias to [songs], [play] returns and
    leaves a chain that did not exist before, holding exactly one playlist
    oracle, new as well, over [songs] with its cursor at the start; the
    switch targets that chain and [self.queueing_oracle] refers to it; the
    interrupt queue of the root is empty; the player has been asked for the
    next song; no object of the old store other than the switch and the root
    is written. *)
Theorem play_is_destructive_reset (s : Controller.St) (song_alias : string)
    (songs : list string) :
  Controller.wired s ->
  MediaLibrary.get (os_path_isfile (snd s)) (Controller.media_library (fst s)) song_alias
  = Ok songs ->
  exists (s' : Controller.St) (q p : loc),
    Controller.play song_alias s = (Ok tt, s')
    /\ Controller.queueing_oracle (fst s') = q
    /\ objects (snd s) !! q = None
    /\ objects (snd s) !! p = None
    /\ objects (snd s') !! q = Some (ChainOracle [p] 0)
    /\ objects (snd s') !! p = Some (PlaylistOracle songs 0)
    /\ Controller.switch_oracle (fst s') = Controller.switch_oracle (fst s)
    /\ objects (snd s') !! Controller.switch_oracle (fst s) = Some (SwitchOracle (Some q))
    /\ Controller.interrupt_oracle (fst s') = Controller.interrupt_oracle (fst s)
    /\ objects (snd s') !! Controller.interrupt_oracle (fst s)
       = Some (InterruptOracle [] (Controller.switch_oracle (fst s)))
    /\ Player.requests (Controller.vlc_player (fst s'))
       = Player.requests (Controller.vlc_player (fst s)) ++ [Player.next_song]
    /\ (forall l o, objects (snd s) !! l = Some o ->
                    l <> Controller.switch_oracle (fst s) ->
                    l <> Controller.interrupt_oracle (fst s) ->
                    objects (snd s') !! l = Some o).
Proof.
  intros Hw Hget. pose proof (play_runs s song_alias songs Hw Hget) as Hrun.
  destruct Hw as ((pending & Hi) & Hsw & _).
  destruct (play_store_lookups _ _ _ songs _ _ Hi Hsw) as (Hq & Hp & Hsw' & Hi' & Hframe).
  eexists _, (length (objects (snd s))), (S (length (objects (snd s)))).
  split; [exact Hrun|]. simpl.
  split; [reflexivity|].
  split; [by apply lookup_ge_None_2|].
  split; [apply lookup_ge_None_2; lia|].
  split; [exact Hq|]. split; [exact Hp|]. split; [reflexivity|].
  split; [exact Hsw'|]. split; [reflexivity|]. split; [exact Hi'|].
  split; [reflexivity|].
  intros l o Hl Hl1 Hl2. rewrite Hframe; try assumption.
  by eapply lookup_lt_Some.
Qed.

Lemma play_is_destructive_reset_witness :
  exists (s' : Controller.St) (p : loc),
    Controller.play "mix" state0 = (Ok tt, s')
    /\ objects (snd s') !! Controller.queueing_oracle (fst s') = Some (ChainOracle [p] 0)
    /\ objects (snd s') !! p = Some (PlaylistOracle ["file:s1"; "file:s2"]%string 0)
    /\ objects (snd s') !! 2 = Some (InterruptOracle [] 0).
Proof.
  destruct (play_is_destructive_reset state0 "mix" ["file:s1"; "file:s2"]%string)
    as (s' & q & p & Hrun & Hq & _ & _ & Hchain & Hp & _ & _ & _ & Hi & _).
  - exact wired_state0.
  - vm_compute. reflexivity.
  - exists s', p. rewrite Hq. repeat split; assumption.
Defined.

(** [queue] and [queue_repeat] differ in the oracle they construct only. *)
Lemma append_runs (s : Controller.St) (alias : string) (songs : list string)
    (mk : list string -> Oracle) (children : list loc) (cursor : nat) :
  MediaLibrary.get (os_path_isfile (snd s)) (Controller.media_library (fst s)) alias
  = Ok songs ->
  objects (snd s) !! Controller.queueing_oracle (fst s) = Some (ChainOracle children cursor) ->
  (songs <- Controller.media_library_get alias ;;
   q <- gets (fun s => Controller.queueing_oracle (fst s)) ;;
   p <- Controller.construct (mk songs) ;;
   Controller.call (oracles.add q p)) s
  = (Ok tt,
     (fst s,
      Controller.set_objects
        (<[Controller.queueing_oracle (fst s)
           := ChainOracle (children ++ [length (objects (snd s))]) cursor]>
           (objects (snd s) ++ [mk songs]))
        (snd s))).
Proof.
  intros Hget Hq. destruct s as [c w]. simpl in *.
  unfold bind, Controller.media_library_get, try. simpl. rewrite Hget.
  unfold Controller.construct, gets, Controller.call, oracles.new. simpl.
  by rewrite (add_ok _ _ _ children cursor) by (by apply lookup_app_l_Some).
Qed.

Lemma append_lookups (h : oracles.store) (q : loc) (o : Oracle)
    (children : list loc) (cursor : nat) :
  h !! q = Some (ChainOracle children cursor) ->
  let h' := <[q := ChainOracle (children ++ [length h]) cursor]> (h ++ [o]) in
  h !! length h = None
  /\ h' !! length h = Some o
  /\ h' !! q = Some (ChainOracle (children ++ [length h]) cursor)
  /\ forall l, l <> q -> l <> length h -> h' !! l = h !! l.
Proof.
  intros Hq h'. pose proof (lookup_lt_Some _ _ _ Hq) as Hlt. subst h'.
  split; [by apply lookup_ge_None_2|]. split; [|split].
  - rewrite list_lookup_insert_ne by lia. by apply list_lookup_middle.
  - apply list_lookup_insert_eq. rewrite length_app. lia.
  - intros l Hl1 Hl2. rewrite list_lookup_insert_ne by done.
    destruct (decide (l < length h)) as [Hl|Hl].
    + by rewrite lookup_app_l.
    + rewrite !lookup_ge_None_2; [done|lia|rewrite length_app; simpl; lia].
Qed.

(** C4: when the library resolves the alias to [songs], [queue] returns
    and the chain the switch targets has one more child at its tail, a new
    playlist oracle over [songs]; its earlier children and its cursor, the
    switch, the root with its pending interrupts, every other object of the
    store, the controller's own fields and the native library are as
    before. *)
Theorem queue_appends_at_tail (s : Controller.St) (alias : string)
    (songs : list string) :
  Controller.wired s ->
  MediaLibrary.get (os_path_isfile (snd s)) (Controller.media_library (fst s)) alias
  = Ok songs ->
  let sw := Controller.switch_oracle (fst s) in
  let i := Controller.interrupt_oracle (fst s) in
  exists (s' : Controller.St) (q p : loc) (children : list loc) (cursor : nat)
         (pending : list string),
    Controller.queue alias s = (Ok tt, s')
    /\ fst s' = fst s
    /\ native (snd s') = native (snd s)
    /\ objects (snd s) !! sw = Some (SwitchOracle (Some q))
    /\ objects (snd s) !! q = Some (ChainOracle children cursor)
    /\ objects (snd s) !! i = Some (InterruptOracle pending sw)
    /\ objects (snd s) !! p = None
    /\ objects (snd s') !! p = Some (PlaylistOracle songs 0)
    /\ objects (snd s') !! q = Some (ChainOracle (children ++ [p]) cursor)
    /\ objects (snd s') !! sw = Some (SwitchOracle (Some q))
    /\ objects (snd s') !! i = Some (InterruptOracle pending sw)
    /\ (forall l, l <> q -> l <> p -> objects (snd s') !! l = objects (snd s) !! l).
Proof.
  intros ((pending & Hi) & Hsw & (children & cursor & Hq)) Hget sw i.
  pose proof (append_runs s alias songs (fun songs => PlaylistOracle songs 0) _ _ Hget Hq)
    as Hrun.
  destruct (append_lookups _ _ (PlaylistOracle songs 0) _ _ Hq)
    as (Hfresh & Hp & Hq' & Hframe).
  pose proof (lookup_lt_Some _ _ _ Hi) as Hilt.
  pose proof (lookup_lt_Some _ _ _ Hsw) as Hswlt.
  eexists _, (Controller.queueing_oracle (fst s)), (length (objects (snd s))),
    children, cursor, pending.
  split; [exact Hrun|]. simpl.
  repeat (split; [first [reflexivity|assumption]|]).
  split.
  { subst sw. rewrite Hframe; [assumption| |lia]. intros E. rewrite E in Hsw. congruence. }
  split.
  { subst i. rewrite Hframe; [assumption| |lia]. intros E. rewrite E in Hi. congruence. }
  exact Hframe.
Qed.

Lemma queue_appends_at_tail_witness :
  exists (s' : Controller.St) (p : loc),
    Controller.queue "s2" state0 = (Ok tt, s')
    /\ fst s' = fst state0
    /\ objects (snd s') !! p = Some (PlaylistOracle ["file:s2"]%string 0)
    /\ objects (snd s') !! 1 = Some (ChainOracle [p] 0)
    /\ objects (snd s') !! 0 = Some (SwitchOracle (Some 1))
    /\ objects (snd s') !! 2 = Some (InterruptOracle [] 0).
Proof.
  destruct (queue_appends_at_tail state0 "s2" ["file:s2"]%string)
    as (s' & q & p & children & cursor & pending
        & Hrun & Hfst & _ & Hsw & Hq & Hi & _ & Hp & Hq' & Hsw' & Hi' & _).
  - exact wired_state0.
  - vm_compute. reflexivity.
  - simpl in Hsw, Hi, Hsw', Hi'.
    injection Hsw as <-. injection Hi as <-. simpl in Hq. injection Hq as <- <-.
    exists s', p. repeat split; assumption.
Defined.

(** C10: for a name that is neither a playlist nor a song of the library,
    [play], [queue] and [queue_repeat] raise [NotFoundException] and the
    state they leave is the state they found: the store of oracles (switch
    target, chain children, pending interrupts), the controller's fields
    and the native library. *)
Theorem unregistered_name_changes_nothing (s : Controller.St) (name : string)
    (times : option nat) :
  MediaLibrary.playlists (Controller.media_library (fst s)) !! name = None ->
  MediaLibrary.song_map (Controller.media_library (fst s)) !! name = None ->
  Controller.play name s = (Raise NotFoundException, s)
  /\ Controller.queue name s = (Raise NotFoundException, s)
  /\ Controller.queue_repeat name times s = (Raise NotFoundException, s).
Proof.
  intros Hp Hs.
  unfold Controller.play, Controller.queue, Controller.queue_repeat, bind,
    Controller.media_library_get, try.
  by rewrite (get_unregistered _ _ _ Hp Hs).
Qed.

Lemma unregistered_name_changes_nothing_witness :
  Controller.play "nope" state0 = (Raise NotFoundException, state0)
  /\ Controller.queue "nope" state0 = (Raise NotFoundException, state0)
  /\ Controller.queue_repeat "nope" (Some 2) state0 = (Raise NotFoundException, state0).
Proof.
  apply (unregistered_name_changes_nothing state0 "nope" (Some 2)).
  - vm_compute. reflexivity.
  - vm_compute. reflexivity.
Defined.

(** ** Re-enumerating the devices *)

Lemma head_addr_length (p : AudioOutputDevice) : length (head_addr p) <= 1.
Proof. destruct p; simpl; lia. Qed.

Lemma release_own_list (p : AudioOutputDevice) (vlc : libvlc) :
  live vlc = head_addr p ->
  live (libvlc_audio_output_device_list_release p vlc) = [].
Proof.
  intros Hlive. destruct p as [|a c]; simpl in *; [assumption|].
  rewrite Hlive. simpl. by rewrite N.eqb_refl.
Qed.

Lemma owns_state0 : Controller.owns state0.
Proof. reflexivity. Defined.

(** C7: from a state where the controller's registry owns the only live
    native list, [list_devices] goes through four states: the one it found,
    the one after [self.devices.free()], where the old registry is invalid
    and no native list is live, the one after the new list is enumerated and
    wrapped, and the one after the assignment, where the new registry is
    valid and owns the only live list. In none of them is more than one
    native list live. *)
Theorem list_devices_one_live_snapshot (s : Controller.St) :
  Controller.owns s ->
  exists (s1 s2 s3 : Controller.St) (d : AudioDevices.t) (out : string),
    Controller.list_devices_states s = [s; s1; s2; s3]
    /\ Controller.list_devices s = (Ok out, s3)
    /\ AudioDevices.valid (Controller.devices (fst s1)) = false
    /\ live (native (snd s1)) = []
    /\ Controller.devices (fst s2) = Controller.devices (fst s1)
    /\ AudioDevices.valid d = true
    /\ live (native (snd s2)) = head_addr (AudioDevices.device_list_ptr d)
    /\ Controller.devices (fst s3) = d
    /\ Controller.owns s3
    /\ Forall (fun s' : Controller.St => length (live (native (snd s'))) <= 1)
         [s; s1; s2; s3].
Proof.
  intros Hown. destruct s as [c w]. unfold Controller.owns in Hown. simpl in Hown.
  assert (live (native (snd (Controller.list_devices_free (c, w)))) = []
          /\ AudioDevices.valid
               (Controller.devices (fst (Controller.list_devices_free (c, w)))) = false)
    as [Hlive1 Hvalid1].
  { unfold Controller.list_devices_free, AudioDevices.free. simpl.
    destruct (AudioDevices.valid (Controller.devices c)) eqn:Hv; simpl.
    - split; [by apply release_own_list|reflexivity].
    - split; assumption. }
  unfold Controller.list_devices_states, Controller.list_devices, bind, modify, try.
  destruct (Controller.list_devices_free (c, w)) as [c1 w1] eqn:Hs1. simpl in *.
  unfold Controller.list_devices_enum, libvlc_audio_output_device_enum. simpl.
  unfold AudioDevices.__str__ at 1. simpl.
  eexists _, _, _,
    (AudioDevices.__init__ (alloc_list (brk (native w1)) (hardware (native w1)))), _.
  split; [reflexivity|]. split; [reflexivity|]. simpl.
  split; [assumption|]. split; [assumption|]. split; [reflexivity|].
  split; [reflexivity|]. rewrite Hlive1, app_nil_r.
  split; [reflexivity|]. split; [reflexivity|]. split; [reflexivity|].
  repeat match goal with |- Forall _ _ => constructor end; simpl.
  - rewrite Hown. destruct (AudioDevices.valid (Controller.devices c)); simpl;
      [apply head_addr_length|lia].
  - rewrite Hlive1. simpl. lia.
  - apply head_addr_length.
  - apply head_addr_length.
Qed.

Lemma list_devices_one_live_snapshot_witness :
  exists (s1 s2 s3 : Controller.St) (out : string),
    Controller.list_devices_states state0 = [state0; s1; s2; s3]
    /\ Controller.list_devices state0 = (Ok out, s3)
    /\ live (native (snd s1)) = []
    /\ Controller.owns s3
    /\ Forall (fun s' : Controller.St => length (live (native (snd s'))) <= 1)
         [state0; s1; s2; s3].
Proof.
  destruct (list_devices_one_live_snapshot state0 owns_state0)
    as (s1 & s2 & s3 & d & out & Hst & Hrun & _ & Hl1 & _ & _ & _ & _ & Hown & Hall).
  exists s1, s2, s3, out. repeat split; assumption.
Defined.

(** ** Draining the interrupt queue *)

Lemma advance_pops_interrupt (fuel : nat) (h : oracles.store) (root : loc)
    (item : string) (pending : list string) (fallback : loc) :
  h !! root = Some (InterruptOracle (item :: pending) fallback) ->
  oracles.advance (S fuel) root h
  = Some (Some item, <[root := InterruptOracle pending fallback]> h).
Proof. intros Hroot. simpl. by rewrite Hroot. Qed.

Lemma interrupt_drain (fuel n : nat) :
  forall (h : oracles.store) (root : loc) (pending : list string) (fallback : loc),
    h !! root = Some (InterruptOracle pending fallback) ->
    n <= length pending ->
    oracles.advance_n (S fuel) n root h
    = Some (Some <$> take n pending,
            <[root := InterruptOracle (drop n pending) fallback]> h).
Proof.
  induction n as [|n IH]; intros h root pending fallback Hroot Hn.
  - simpl. rewrite drop_0. by rewrite list_insert_id.
  - destruct pending as [|item pending']; simpl in Hn; [lia|].
    pose proof (lookup_lt_Some _ _ _ Hroot) as Hlt.
    cbn [oracles.advance_n]. rewrite (advance_pops_interrupt _ _ _ _ _ _ Hroot).
    rewrite (IH _ _ pending' fallback) by (try apply list_lookup_insert_eq; lia).
    by rewrite list_insert_insert_eq.
Qed.

(** C2: on a store where [root] is an interrupt oracle, whatever its
    fallback and the rest of the store are, [interrupt items] returns, and
    each of the next [n] calls of [advance] on [root], for [n] up to the
    number of items then pending, returns the next pending item, oldest
    first, newly enqueued ones after those pending before; the fallback and
    every other object are not written. With nothing pending before
    [interrupt [a; b]], the next two calls return [a] then [b]. *)
Theorem interrupts_first_in_fifo_order (h : oracles.store) (root fallback : loc)
    (pending items : list string) (fuel : nat) :
  h !! root = Some (InterruptOracle pending fallback) ->
  exists h1 : oracles.store,
    oracles.interrupt root items h = Ok h1
    /\ (forall n, n <= length (pending ++ items) ->
          oracles.advance_n (S fuel) n root h1
          = Some (Some <$> take n (pending ++ items),
                  <[root := InterruptOracle (drop n (pending ++ items)) fallback]> h))
    /\ (forall a b, pending = [] -> items = [a; b] ->
          oracles.advance_n (S fuel) 2 root h1
          = Some ([Some a; Some b], <[root := InterruptOracle [] fallback]> h)).
Proof.
  intros Hroot. pose proof (lookup_lt_Some _ _ _ Hroot) as Hlt.
  eexists. split; [by apply interrupt_ok|].
  assert (forall n, n <= length (pending ++ items) ->
            oracles.advance_n (S fuel) n root
              (<[root := InterruptOracle (pending ++ items) fallback]> h)
            = Some (Some <$> take n (pending ++ items),
                    <[root := InterruptOracle (drop n (pending ++ items)) fallback]> h))
    as Hdrain.
  { intros n Hn.
    rewrite (interrupt_drain fuel n _ root (pending ++ items) fallback)
      by (try apply list_lookup_insert_eq; assumption).
    by rewrite list_insert_insert_eq. }
  split; [exact Hdrain|].
  intros a b -> ->. by rewrite Hdrain by (simpl; lia).
Qed.

Lemma interrupts_first_in_fifo_order_witness :
  exists h1 : oracles.store,
    oracles.interrupt 2 ["a"; "b"]%string (objects (snd state0)) = Ok h1
    /\ oracles.advance_n 1 2 2 h1
       = Some ([Some "a"; Some "b"]%string,
               <[2 := InterruptOracle [] 0]> (objects (snd state0))).
Proof.
  destruct (interrupts_first_in_fifo_order (objects (snd state0)) 2 0 []
              ["a"; "b"]%string 0 eq_refl) as (h1 & Hint & _ & Hab).
  exists h1. split; [exact Hint|]. by apply Hab.
Defined.

(** ** The states a controller can be in *)

Lemma same_links_refl (o : Oracle) : same_links o o.
Proof. by destruct o. Qed.

Lemma same_links_trans (o1 o2 o3 : Oracle) :
  same_links o1 o2 -> same_links o2 o3 -> same_links o1 o3.
Proof. destruct o1, o2, o3; simpl; try done; congruence. Qed.

Lemma links_refl (h : oracles.store) : Forall2 same_links h h.
Proof. apply Forall_Forall2_diag, Forall_forall. intros. apply same_links_refl. Qed.

Lemma links_trans (h1 h2 h3 : oracles.store) :
  Forall2 same_links h1 h2 -> Forall2 same_links h2 h3 -> Forall2 same_links h1 h3.
Proof. apply Forall2_trans, same_links_trans. Qed.

Lemma links_insert (h : oracles.store) (l : loc) (o o' : Oracle) :
  h !! l = Some o -> same_links o o' -> Forall2 same_links h (<[l := o']> h).
Proof.
  intros Hl Ho. rewrite <- (list_insert_id h l o Hl) at 1.
  apply Forall2_insert; [apply links_refl|assumption].
Qed.

(** [advance] moves cursors and pops pending items; it rewires nothing. *)
Lemma advance_links (fuel : nat) :
  forall (self : loc) (h h' : oracles.store) (r : option string),
    oracles.advance fuel self h = Some (r, h') -> Forall2 same_links h h'.
Proof.
  induction fuel as [|fuel IH]; intros self h h' r Hadv; [discriminate|].
  simpl in Hadv. destruct (h !! self) as [o|] eqn:Hself; [|discriminate].
  destruct o as [songs cursor|songs cursor times|children cursor|active|pending fallback].
  - destruct (songs !! cursor); injection Hadv as <- <-;
      [by eapply links_insert|apply links_refl].
  - destruct (songs !! cursor).
    { injection Hadv as <- <-. by eapply links_insert. }
    destruct (songs !! 0), times as [[|n]|]; injection Hadv as <- <-;
      first [apply links_refl|by eapply links_insert].
  - destruct (children !! cursor) as [child|]; [|injection Hadv as <- <-; apply links_refl].
    destruct (oracles.advance fuel child h) as [[[item|] h1]|] eqn:Hchild; [| |discriminate].
    + injection Hadv as <- <-. by eapply IH.
    + pose proof (IH _ _ _ _ Hchild) as H1.
      destruct (Forall2_lookup_l _ _ _ _ _ H1 Hself) as (o1 & Hself1 & Ho1).
      eapply links_trans; [exact H1|]. eapply links_trans; [|by eapply IH].
      eapply links_insert; [exact Hself1|]. by destruct o1.
  - destruct active as [target|]; [by eapply IH|injection Hadv as <- <-; apply links_refl].
  - destruct pending as [|item pending']; [by eapply IH|].
    injection Hadv as <- <-. by eapply links_insert.
Qed.

Lemma wired_links (c : Controller.t) (w w' : World) :
  Forall2 same_links (objects w) (objects w') ->
  Controller.wired (c, w) -> Controller.wired (c, w').
Proof.
  intros Hl ((pending & Hi) & Hsw & (children & cursor & Hq)). simpl in *.
  destruct (Forall2_lookup_l _ _ _ _ _ Hl Hi) as ([] & Hi' & Ei); try done.
  destruct (Forall2_lookup_l _ _ _ _ _ Hl Hsw) as ([] & Hsw' & Esw); try done.
  destruct (Forall2_lookup_l _ _ _ _ _ Hl Hq) as ([] & Hq' & Eq); try done.
  simpl in *. subst. repeat split; simpl; eauto.
Qed.

Lemma init_wired_owns (ml : option MediaLibrary.t) (w : World) :
  live (native w) = [] ->
  exists c w', Controller.__init__ ml w = (Ok c, w')
               /\ Controller.wired (c, w') /\ Controller.owns (c, w').
Proof.
  intros Hlive. unfold Controller.__init__, oracles.new. simpl.
  rewrite (set_oracle_ok _ _ _ None).
  2:{ rewrite <- !app_assoc. by apply list_lookup_middle. }
  eexists _, _. split; [reflexivity|]. split.
  - unfold Controller.wired. simpl. rewrite !length_app. simpl.
    rewrite <- !app_assoc. simpl.
    assert (length (objects w) < length (objects w ++ [SwitchOracle None; ChainOracle [] 0;
                                InterruptOracle [] (length (objects w))])) as Hlen
      by (rewrite length_app; simpl; lia).
    split; [exists []|split; [|exists [], 0]].
    + rewrite list_lookup_insert_ne by lia.
      replace (length (objects w) + 1 + 1) with (length (objects w) + 2) by lia.
      by rewrite lookup_app_r, Nat.add_sub' by lia.
    + by rewrite list_lookup_insert_eq.
    + rewrite list_lookup_insert_ne by lia.
      by rewrite lookup_app_r, Nat.add_sub' by lia.
  - unfold Controller.owns. simpl. by rewrite Hlive, app_nil_r.
Qed.

Lemma play_wired_owns (s : Controller.St) (alias : string) :
  Controller.wired s -> Controller.owns s ->
  Controller.wired (snd (Controller.play alias s))
  /\ Controller.owns (snd (Controller.play alias s)).
Proof.
  intros Hw Ho.
  destruct (MediaLibrary.get (os_path_isfile (snd s)) (Controller.media_library (fst s))
              alias) as [songs|e] eqn:Hget.
  - rewrite (play_runs s alias songs Hw Hget). split; [|exact Ho].
    destruct Hw as ((pending & Hi) & Hsw & _).
    destruct (play_store_lookups _ _ _ songs _ _ Hi Hsw) as (Hq & _ & Hsw' & Hi' & _).
    unfold Controller.wired. simpl. eauto 10.
  - unfold Controller.play, bind, Controller.media_library_get, try.
    rewrite Hget. by split.
Qed.

Lemma append_wired_owns (s : Controller.St) (alias : string)
    (mk : list string -> Oracle) :
  Controller.wired s -> Controller.owns s ->
  let s' := snd ((songs <- Controller.media_library_get alias ;;
                  q <- gets (fun s => Controller.queueing_oracle (fst s)) ;;
                  p <- Controller.construct (mk songs) ;;
                  Controller.call (oracles.add q p)) s) in
  Controller.wired s' /\ Controller.owns s'.
Proof.
  intros Hw Ho.
  destruct (MediaLibrary.get (os_path_isfile (snd s)) (Controller.media_library (fst s))
              alias) as [songs|e] eqn:Hget.
  - destruct Hw as ((pending & Hi) & Hsw & (children & cursor & Hq)).
    rewrite (append_runs s alias songs mk _ _ Hget Hq). simpl. split; [|exact Ho].
    destruct (append_lookups _ _ (mk songs) _ _ Hq) as (_ & _ & Hq' & Hframe).
    pose proof (lookup_lt_Some _ _ _ Hi). pose proof (lookup_lt_Some _ _ _ Hsw).
    unfold Controller.wired. simpl. split; [exists pending|split; [|eauto]].
    + rewrite Hframe; [assumption| |lia]. intros E. rewrite E in Hi. congruence.
    + rewrite Hframe; [assumption| |lia]. intros E. rewrite E in Hsw. congruence.
  - unfold bind, Controller.media_library_get, try. rewrite Hget. by split.
Qed.

Lemma list_devices_wired_owns (s : Controller.St) :
  Controller.wired s -> Controller.owns s ->
  Controller.wired (snd (Controller.list_devices s))
  /\ Controller.owns (snd (Controller.list_devices s)).
Proof.
  intros Hw Ho. destruct s as [c w].
  unfold Controller.owns, Controller.wired in *. simpl in *.
  unfold Controller.list_devices_free, AudioDevices.free. simpl.
  destruct (AudioDevices.valid (Controller.devices c)); simpl; (split; [exact Hw|]).
  - pose proof (release_own_list _ _ Ho) as Hr. simpl in Hr.
    by rewrite Hr, app_nil_r.
  - by rewrite Ho, app_nil_r.
Qed.

Lemma interrupt_wired_owns (s : Controller.St) (items : list string) :
  Controller.wired s -> Controller.owns s ->
  Controller.wired (snd (Controller.interrupt items s))
  /\ Controller.owns (snd (Controller.interrupt items s)).
Proof.
  intros Hw Ho. pose proof Hw as ((pending & Hi) & _). destruct s as [c w].
  unfold Controller.interrupt, bind, gets, Controller.call. simpl in *.
  rewrite (interrupt_ok _ _ _ _ _ Hi). simpl. split; [|exact Ho].
  eapply wired_links; [|exact Hw]. simpl. by eapply links_insert.
Qed.

(** Every state of a controller is wired, and its registry owns the only
    live native list. In particular the oracle the player pulls from is an
    interrupt oracle that falls back on the switch. *)
Lemma reachable_wired_owns (s : Controller.St) :
  reachable s -> Controller.wired s /\ Controller.owns s.
Proof.
  induction 1 as [ml w c w' Hlive Hinit|s alias _ [Hw Ho]|s alias _ [Hw Ho]
                 |s alias times _ [Hw Ho]|s _ [Hw Ho]|s items _ [Hw Ho]
                 |s fuel item s' _ [Hw Ho] Hadv|s hw isfile ml _ [Hw Ho]].
  - destruct (init_wired_owns ml w Hlive) as (c0 & w0 & Hinit0 & Hw & Ho).
    rewrite Hinit in Hinit0. by injection Hinit0 as <- <-.
  - by apply play_wired_owns.
  - by apply (append_wired_owns s alias (fun songs => PlaylistOracle songs 0)).
  - by apply (append_wired_owns s alias (fun songs => RepeatingOracle songs 0 times)).
  - by apply list_devices_wired_owns.
  - by apply interrupt_wired_owns.
  - unfold Controller.advance in Hadv. destruct s as [c w]. simpl in Hadv.
    destruct (oracles.advance fuel (Controller.interrupt_oracle c) (objects w))
      as [[item' h]|] eqn:Hstore; [|discriminate].
    injection Hadv as <- <-. split; [|exact Ho].
    eapply wired_links; [|exact Hw]. simpl. by eapply advance_links.
  - split; [exact Hw|exact Ho].
Qed.

(** ** What plays after [play] *)

Lemma single_playlist_pull (fuel : nat) (h : oracles.store) (root sw q p : loc)
    (songs : list string) (j : nat) :
  single_playlist h root sw q p songs j 0 ->
  exists h',
    oracles.advance (4 + fuel) root h = Some (songs !! j, h')
    /\ single_playlist h' root sw q p songs (if songs !! j is Some _ then S j else j)
         (if songs !! j is Some _ then 0 else 1).
Proof.
  intros (Hroot & Hsw & Hq & Hp).
  pose proof (lookup_lt_Some _ _ _ Hroot). pose proof (lookup_lt_Some _ _ _ Hsw).
  pose proof (lookup_lt_Some _ _ _ Hq). pose proof (lookup_lt_Some _ _ _ Hp).
  assert (p <> root) by (intros ->; congruence).
  assert (p <> sw) by (intros ->; congruence).
  assert (p <> q) by (intros ->; congruence).
  assert (q <> root) by (intros ->; congruence).
  assert (q <> sw) by (intros ->; congruence).
  simpl. rewrite Hroot, Hsw, Hq. simpl. rewrite Hp.
  destruct (songs !! j) as [item|] eqn:Hj.
  - eexists. split; [reflexivity|].
    repeat split; rewrite ?list_lookup_insert_ne by done; try assumption.
    by apply list_lookup_insert_eq.
  - rewrite list_lookup_insert_eq by done. simpl.
    eexists. split; [reflexivity|].
    repeat split; rewrite ?list_lookup_insert_ne by done; try assumption.
    by apply list_lookup_insert_eq.
Qed.

Lemma single_playlist_exhausted (fuel : nat) (h : oracles.store) (root sw q p : loc)
    (songs : list string) (j : nat) :
  single_playlist h root sw q p songs j 1 ->
  oracles.advance (4 + fuel) root h = Some (None, h).
Proof. intros (Hroot & Hsw & Hq & Hp). simpl. by rewrite Hroot, Hsw, Hq. Qed.

Lemma single_playlist_pulls (fuel n : nat) :
  forall (h : oracles.store) (root sw q p : loc) (songs : list string) (j cq : nat),
    single_playlist h root sw q p songs j cq ->
    (cq = 0 \/ cq = 1 /\ length songs <= j) ->
    fst <$> oracles.advance_n (4 + fuel) n root h = Some (upcoming (drop j songs) n).
Proof.
  induction n as [|n IH]; intros h root sw q p songs j cq Htree Hcq; [reflexivity|].
  cbn [oracles.advance_n]. destruct Hcq as [->|[-> Hj]].
  - destruct (single_playlist_pull fuel _ _ _ _ _ _ _ Htree) as (h' & -> & Htree').
    destruct (songs !! j) as [item|] eqn:Hitem.
    + specialize (IH _ _ _ _ _ _ _ _ Htree' (or_introl eq_refl)).
      destruct (oracles.advance_n (4 + fuel) n root h') as [[items h'']|]; [|done].
      simpl in IH. injection IH as ->. by rewrite (drop_S _ _ _ Hitem).
    + apply lookup_ge_None_1 in Hitem.
      specialize (IH _ _ _ _ _ _ _ _ Htree' (or_intror (conj eq_refl Hitem))).
      destruct (oracles.advance_n (4 + fuel) n root h') as [[items h'']|]; [|done].
      simpl in IH. injection IH as ->. by rewrite (drop_ge _ _ Hitem).
  - rewrite (single_playlist_exhausted fuel _ _ _ _ _ _ _ Htree).
    specialize (IH _ _ _ _ _ _ _ _ Htree (or_intror (conj eq_refl Hj))).
    destruct (oracles.advance_n (4 + fuel) n root h) as [[items h'']|]; [|done].
    simpl in IH. injection IH as ->. by rewrite (drop_ge _ _ Hj).
Qed.

(** After [play] the root yields the songs the alias resolved to, once and
    in order, and then nothing, whatever was queued or pending before. *)
Lemma play_upcoming (s : Controller.St) (alias : string) (songs : list string)
    (fuel n : nat) :
  Controller.wired s ->
  MediaLibrary.get (os_path_isfile (snd s)) (Controller.media_library (fst s)) alias
  = Ok songs ->
  let s' := snd (Controller.play alias s) in
  fst <$> oracles.advance_n (4 + fuel) n (Controller.interrupt_oracle (fst s'))
            (objects (snd s'))
  = Some (upcoming songs n).
Proof.
  intros Hw Hget. rewrite (play_runs s alias songs Hw Hget). simpl.
  destruct Hw as ((pending & Hi) & Hsw & _).
  destruct (play_store_lookups _ _ _ songs _ _ Hi Hsw) as (Hq & Hp & Hsw' & Hi' & _).
  apply (single_playlist_pulls fuel n _ _ (Controller.switch_oracle (fst s))
           (length (objects (snd s))) (S (length (objects (snd s)))) songs 0 0);
    [repeat split; assumption|by left].
Qed.

(** ** The scenarios of the specification, on [state0] *)

Example scenario_play :
  fst <$> oracles.advance_n 8 3 2 (objects (snd (snd (Controller.play "mix" state0))))
  = Some [Some "file:s1"; Some "file:s2"; None]%string.
Proof. vm_compute. reflexivity. Qed.

Example scenario_play_then_queue :
  let s1 := snd (Controller.play "s1" state0) in
  let (i1, s2) := pull s1 in
  let s3 := snd (Controller.queue "s2" s2) in
  let (i2, s4) := pull s3 in
  let (i3, s5) := pull s4 in
  [i1; i2; i3] = [Some "file:s1"; Some "file:s2"; None]%string.
Proof. vm_compute. reflexivity. Qed.

Example scenario_queue_after_exhaustion :
  let s1 := snd (Controller.play "s1" state0) in
  let (i1, s2) := pull s1 in
  let (i2, s3) := pull s2 in
  let s4 := snd (Controller.queue "s2" s3) in
  let (i3, s5) := pull s4 in
  [i1; i2; i3] = [Some "file:s1"; None; Some "file:s2"]%string.
Proof. vm_compute. reflexivity. Qed.

Example scenario_queue_repeat :
  fst <$> oracles.advance_n 8 5 2
            (objects (snd (snd (Controller.queue_repeat "mix" (Some 1) state0))))
  = Some [Some "file:s1"; Some "file:s2"; Some "file:s1"; Some "file:s2"; None]%string.
Proof. vm_compute. reflexivity. Qed.

Example scenario_play_discards_queue :
  let s1 := snd (Controller.queue_repeat "mix" None state0) in
  let s2 := snd (Controller.interrupt ["x"]%string s1) in
  let s3 := snd (Controller.play "s2" s2) in
  fst <$> oracles.advance_n 8 3 2 (objects (snd s3))
  = Some [Some "file:s2"; None; None]%string.
Proof. vm_compute. reflexivity. Qed.

Example scenario_interrupt_over_endless_repeat :
  let s1 := snd (Controller.queue_repeat "mix" None state0) in
  let s2 := snd (Controller.interrupt ["a"; "b"]%string s1) in
  fst <$> oracles.advance_n 8 4 2 (objects (snd s2))
  = Some [Some "a"; Some "b"; Some "file:s1"; Some "file:s2"]%string.
Proof. vm_compute. reflexivity. Qed.

Example scenario_registry_lifecycle :
  let self := AudioDevices.__init__ snap3 in
  let self' := fst (AudioDevices.free self vlc0) in
  odict.items (AudioDevices.user_device_map self)
  = [(0%Z, AudioDevice.Build_t
             (Struct (Ptr 17 (Struct (Ptr 18 (Struct NULL "hdmi" "Monitor"))
                                "hw:1" "Headphones")) "hw:0" "Speakers"));
     (1%Z, AudioDevice.Build_t
             (Struct (Ptr 18 (Struct NULL "hdmi" "Monitor")) "hw:1" "Headphones"));
     (2%Z, AudioDevice.Build_t (Struct NULL "hdmi" "Monitor"))]
  /\ AudioDevices.device_for_index self' 0 = Raise UseAfterFreeException.
Proof. vm_compute. split; reflexivity. Qed.

(** * Further properties of the code *)

Local Open Scope string_scope.

(** ** Looking a device up by name *)

Lemma device_name_map_fold (name : string) (cs : list audio_output_device_t)
    (m : gmap (option string) (option AudioDevice.t)) :
  fold_left (fun m d => <[Some (device (AudioDevice.contents d)) := Some d]> m)
    (AudioDevice.Build_t <$> cs) m !! Some name
  = match last_named name cs with
    | Some c => Some (Some (AudioDevice.Build_t c))
    | None => m !! Some name
    end.
Proof.
  unfold last_named. revert m. induction cs as [|c cs IH]; intros m; [reflexivity|].
  simpl. rewrite IH. rewrite filter_cons. destruct (decide (device c = name)) as [<-|Hne].
  - destruct (filter _ cs) as [|c' cs'] eqn:Hf.
    + simpl. apply lookup_insert_eq.
    + rewrite last_cons_cons. destruct (last (c' :: cs')) eqn:E; [done|].
      by apply last_None in E.
  - destruct (last (filter _ cs)); [reflexivity|].
    rewrite lookup_insert_ne; [reflexivity|congruence].
Qed.

Lemma device_from_name_some (p : AudioOutputDevice) (name : string) :
  AudioDevices.device_name_map (AudioDevices.__init__ p) !! Some name
  = (fun c => Some (AudioDevice.Build_t c)) <$> last_named name (nodes p).
Proof.
  unfold AudioDevices.__init__. simpl.
  rewrite build_devices_nodes, device_name_map_fold.
  destruct (last_named name (nodes p)); [reflexivity|].
  by rewrite lookup_singleton_ne.
Qed.

(** X1: on a registry built from a native list, [device_from_device_name]
    with a name returns the device wrapping the last record of the list
    that carries that name (a later device replaces an earlier one of the
    same name), and raises [KeyError] when no record carries it. *)
Theorem device_from_name_is_last_named (p : AudioOutputDevice) (name : string) :
  AudioDevices.device_from_device_name (AudioDevices.__init__ p) (Some name)
  = match last_named name (nodes p) with
    | Some c => Ok (Some (AudioDevice.Build_t c))
    | None => Raise KeyError
    end.
Proof.
  unfold AudioDevices.device_from_device_name. rewrite device_from_name_some.
  by destruct (last_named name (nodes p)).
Qed.

Example name_shared_by_two_devices :
  AudioDevices.device_from_device_name
    (AudioDevices.__init__ (alloc_list 0 [("hw", "first"); ("usb", "x"); ("hw", "second")]))
    (Some "hw")
  = Ok (Some (AudioDevice.Build_t (Struct NULL "hw" "second"))).
Proof. vm_compute. reflexivity. Qed.

(** ** The listing and the repr of a fresh registry *)

Lemma str_init (p : AudioOutputDevice) :
  AudioDevices.__str__ (AudioDevices.__init__ p)
  = Ok (NEWLINE ++ String.concat NEWLINE (imap listing_line (nodes p))).
Proof.
  unfold AudioDevices.__str__.
  change (AudioDevices.valid (AudioDevices.__init__ p)) with true. simpl negb.
  cbv iota. rewrite user_device_map_init. unfold odict.items, enumerate.
  rewrite (enumerate_from_map _
             (fun i d => listing_line i (AudioDevice.contents d)) _ 0)
    by reflexivity.
  simpl. by rewrite imap_fmap.
Qed.

(** X2: the repr of a registry built from a native list is the repr of a
    dict, braces around one [index: description] entry per record, in link
    order, separated by a comma and a space; once the registry is freed it
    is the fixed text [<Invalid object - already freed>]. *)
Theorem repr_lists_devices (p : AudioOutputDevice) (vlc : libvlc) :
  AudioDevices.__repr__ (AudioDevices.__init__ p)
  = "{" ++ String.concat ", " (imap repr_entry (nodes p)) ++ "}"
  /\ AudioDevices.__repr__ (fst (AudioDevices.free (AudioDevices.__init__ p) vlc))
     = "<Invalid object - already freed>".
Proof.
  split; [|reflexivity]. unfold AudioDevices.__repr__.
  change (AudioDevices.valid (AudioDevices.__init__ p)) with true. simpl negb.
  cbv iota. rewrite user_device_map_init. unfold odict.items, enumerate.
  rewrite (enumerate_from_map _
             (fun i d => repr_entry i (AudioDevice.contents d)) _ 0)
    by reflexivity.
  simpl. by rewrite imap_fmap.
Qed.

Example repr_snap3 :
  AudioDevices.__repr__ (AudioDevices.__init__ snap3)
  = "{0: Speakers, 1: Headphones, 2: Monitor}".
Proof. vm_compute. reflexivity. Qed.

(** ** Listing, selecting and naming the output device *)

Lemma nodes_alloc_list (hw : list (string * string)) (a : N) :
  (fun c => (device c, description c)) <$> nodes (alloc_list a hw) = hw.
Proof.
  revert a. induction hw as [|[dev desc] hw IH]; intros a; simpl; [reflexivity|].
  by rewrite IH.
Qed.

Lemma listing_of_alloc_list (hw : list (string * string)) (a : N) :
  imap listing_line (nodes (alloc_list a hw)) = imap hardware_line hw.
Proof.
  rewrite <- (nodes_alloc_list hw a) at 2. rewrite imap_fmap. reflexivity.
Qed.

Lemma free_keeps_hardware (d : AudioDevices.t) (v : libvlc) :
  hardware (snd (AudioDevices.free d v)) = hardware v.
Proof. unfold AudioDevices.free. by destruct (AudioDevices.valid d). Qed.

(** What [list_devices] computes: the registry it installs wraps a list
    freshly allocated for what the platform reports. *)
Lemma list_devices_runs (s : Controller.St) :
  exists (a : N) (v : libvlc),
    Controller.list_devices s
    = (AudioDevices.__str__
         (AudioDevices.__init__ (alloc_list a (hardware (native (snd s))))),
       Controller.set_devices
         (AudioDevices.__init__ (alloc_list a (hardware (native (snd s)))))
         (fst s, Controller.set_native v (snd s))).
Proof.
  destruct s as [c w].
  unfold Controller.list_devices, bind, modify, try, Controller.list_devices_free,
    Controller.list_devices_enum, libvlc_audio_output_device_enum.
  pose proof (free_keeps_hardware (Controller.devices c) (native w)) as Hhw.
  destruct (AudioDevices.free (Controller.devices (c, w).1) (native (c, w).2))
    as [d1 v1] eqn:Hfree.
  simpl in *. rewrite Hfree in Hhw. simpl in Hhw. rewrite Hhw.
  eexists _, _. reflexivity.
Qed.

(** X3: in every state, whatever the registry it finds (valid or freed),
    [list_devices] returns the listing of what the platform reports at the
    call: a newline, then one line per reported device, in the order
    reported, with its index and its description. It never returns the
    text of a freed registry. *)
Theorem list_devices_lists_hardware (s : Controller.St) :
  fst (Controller.list_devices s)
  = Ok (NEWLINE
        ++ String.concat NEWLINE (imap hardware_line (hardware (native (snd s))))).
Proof.
  destruct (list_devices_runs s) as (a & v & ->). simpl.
  by rewrite str_init, listing_of_alloc_list.
Qed.

Lemma device_for_index_init (p : AudioOutputDevice) (i : Z) :
  AudioDevices.device_for_index (AudioDevices.__init__ p) i
  = match (if decide (0 <= i)%Z then nodes p !! Z.to_nat i else None) with
    | Some c => Ok (AudioDevice.Build_t c)
    | None => Raise KeyError
    end.
Proof.
  unfold AudioDevices.device_for_index, odict.getitem.
  change (AudioDevices.valid (AudioDevices.__init__ p)) with true. simpl negb.
  cbv iota. rewrite user_device_map_get.
  destruct (decide (0 <= i)%Z); [|reflexivity]. by destruct (nodes p !! Z.to_nat i).
Qed.

(** X4: after [list_devices], [set_device i] with the index of a line of
    the listing hands the player the device name of the entry the platform
    reported at that position; with any other index it raises [KeyError]
    before the player is called. *)
Theorem set_device_after_list_devices (s : Controller.St) (i : Z) :
  let hw := hardware (native (snd s)) in
  let s' := snd (Controller.list_devices s) in
  (forall dev desc, (0 <= i)%Z -> hw !! Z.to_nat i = Some (dev, desc) ->
     Controller.set_device i s' = Ok dev)
  /\ ((i < 0)%Z \/ (Z.of_nat (length hw) <= i)%Z ->
      Controller.set_device i s' = Raise KeyError).
Proof.
  intros hw s'. subst s'. destruct (list_devices_runs s) as (a & v & ->). simpl.
  unfold Controller.set_device. simpl. rewrite device_for_index_init.
  pose proof (nodes_alloc_list hw a) as Hn. fold hw. split.
  - intros dev desc Hi Hhw. rewrite decide_True by assumption.
    rewrite <- Hn, list_lookup_fmap in Hhw.
    destruct (nodes (alloc_list a hw) !! Z.to_nat i) as [c|]; [|discriminate].
    simpl in *. congruence.
  - intros Hout. assert (length (nodes (alloc_list a hw)) = length hw) as Hlen
      by (rewrite <- Hn at 2; by rewrite length_fmap).
    destruct Hout as [Hneg|Hbig]; [by rewrite decide_False by lia|].
    destruct (decide (0 <= i)%Z); [|reflexivity].
    by rewrite lookup_ge_None_2 by lia.
Qed.

Lemma set_device_after_list_devices_witness :
  Controller.set_device 2 (snd (Controller.list_devices state0)) = Ok "hdmi"
  /\ Controller.set_device 3 (snd (Controller.list_devices state0)) = Raise KeyError.
Proof.
  split.
  - apply (set_device_after_list_devices state0 2) with (desc := "Monitor");
      [lia|reflexivity].
  - apply (set_device_after_list_devices state0 3). right. simpl. lia.
Defined.

Lemma device_from_name_none (p : AudioOutputDevice) :
  AudioDevices.device_from_device_name (AudioDevices.__init__ p) None
  = Ok (AudioDevice.Build_t <$> head (nodes p)).
Proof.
  unfold AudioDevices.device_from_device_name.
  unfold AudioDevices.__init__ at 1. simpl AudioDevices.device_name_map.
  rewrite device_name_map_default, lookup_singleton_eq.
  pose proof (user_device_map_get p 0) as Hget.
  unfold AudioDevices.__init__ in Hget. simpl in Hget. rewrite Hget.
  by destruct (nodes p).
Qed.

(** X6: with a registry built from a native list, [get_device] answers,
    when the player reports no output in use, the description of the first
    record of the list, or the text [None] when the list is empty; when the
    player reports a name, the description of the last record carrying
    that name, or [KeyError] when no record carries it. *)
Theorem get_device_of_registry (s : Controller.St) (p : AudioOutputDevice)
    (name : string) :
  Controller.devices (fst s) = AudioDevices.__init__ p ->
  Controller.get_device None s
  = Ok match head (nodes p) with
       | Some c => description c
       | None => "None"
       end
  /\ Controller.get_device (Some name) s
     = match last_named name (nodes p) with
       | Some c => Ok (description c)
       | None => Raise KeyError
       end.
Proof.
  intros Hd. unfold Controller.get_device. rewrite Hd. split.
  - rewrite device_from_name_none. by destruct (head (nodes p)).
  - unfold AudioDevices.device_from_device_name. rewrite device_from_name_some.
    by destruct (last_named name (nodes p)).
Qed.

Lemma get_device_of_registry_witness :
  Controller.get_device None state0 = Ok "Speakers"
  /\ Controller.get_device (Some "hw:1") state0 = Ok "Headphones".
Proof. exact (get_device_of_registry state0 snap3 "hw:1" eq_refl). Defined.

(** ** The registry of a controller is never a freed one *)

Lemma play_keeps_devices (s : Controller.St) (alias : string) :
  Controller.wired s ->
  Controller.devices (fst (snd (Controller.play alias s))) = Controller.devices (fst s).
Proof.
  intros Hw.
  destruct (MediaLibrary.get (os_path_isfile (snd s)) (Controller.media_library (fst s))
              alias) as [songs|e] eqn:Hget.
  - by rewrite (play_runs s alias songs Hw Hget).
  - unfold Controller.play, bind, Controller.media_library_get, try. by rewrite Hget.
Qed.

Lemma append_keeps_devices (s : Controller.St) (alias : string)
    (mk : list string -> Oracle) :
  Controller.wired s ->
  Controller.devices
    (fst (snd ((songs <- Controller.media_library_get alias ;;
                q <- gets (fun s => Controller.queueing_oracle (fst s)) ;;
                p <- Controller.construct (mk songs) ;;
                Controller.call (oracles.add q p)) s)))
  = Controller.devices (fst s).
Proof.
  intros Hw.
  destruct (MediaLibrary.get (os_path_isfile (snd s)) (Controller.media_library (fst s))
              alias) as [songs|e] eqn:Hget.
  - destruct Hw as (_ & _ & (children & cursor & Hq)).
    by rewrite (append_runs s alias songs mk _ _ Hget Hq).
  - unfold bind, Controller.media_library_get, try. by rewrite Hget.
Qed.

Lemma reachable_state0 : reachable state0.
Proof. by apply (reach_init (Some lib0) world0 (fst state0) (snd state0)). Defined.



Local Open Scope list_scope.

(** ** Queueing a repeating playlist *)

(** X7: when the library resolves the alias to [songs], [queue_repeat]
    returns and the chain the switch targets has one more child at its
    tail, a new repeating oracle over [songs] with the given number of
    repeats and its cursor at the start; the earlier children and the
    cursor of the chain, the switch, the root with its pending interrupts,
    every other object, the controller's own fields and the native library
    are as before. *)
Theorem queue_repeat_appends_at_tail (s : Controller.St) (alias : string)
    (times : option nat) (songs : list string) :
  Controller.wired s ->
  MediaLibrary.get (os_path_isfile (snd s)) (Controller.media_library (fst s)) alias
  = Ok songs ->
  let sw := Controller.switch_oracle (fst s) in
  let i := Controller.interrupt_oracle (fst s) in
  exists (s' : Controller.St) (q p : loc) (children : list loc) (cursor : nat)
         (pending : list string),
    Controller.queue_repeat alias times s = (Ok tt, s')
    /\ fst s' = fst s
    /\ native (snd s') = native (snd s)
    /\ objects (snd s) !! sw = Some (SwitchOracle (Some q))
    /\ objects (snd s) !! q = Some (ChainOracle children cursor)
    /\ objects (snd s) !! p = None
    /\ objects (snd s') !! p = Some (RepeatingOracle songs 0 times)
    /\ objects (snd s') !! q = Some (ChainOracle (children ++ [p]) cursor)
    /\ objects (snd s') !! sw = Some (SwitchOracle (Some q))
    /\ objects (snd s') !! i = Some (InterruptOracle pending sw)
    /\ (forall l, l <> q -> l <> p -> objects (snd s') !! l = objects (snd s) !! l).
Proof.
  intros ((pending & Hi) & Hsw & (children & cursor & Hq)) Hget sw i.
  pose proof (append_runs s alias songs (fun songs => RepeatingOracle songs 0 times)
                _ _ Hget Hq) as Hrun.
  destruct (append_lookups _ _ (RepeatingOracle songs 0 times) _ _ Hq)
    as (Hfresh & Hp & Hq' & Hframe).
  pose proof (lookup_lt_Some _ _ _ Hi) as Hilt.
  pose proof (lookup_lt_Some _ _ _ Hsw) as Hswlt.
  exists (fst s,
          Controller.set_objects
            (<[Controller.queueing_oracle (fst s)
               := ChainOracle (children ++ [length (objects (snd s))]) cursor]>
               (objects (snd s) ++ [RepeatingOracle songs 0 times]))
            (snd s)),
    (Controller.queueing_oracle (fst s)), (length (objects (snd s))),
    children, cursor, pending.
  split; [exact Hrun|]. simpl.
  split; [reflexivity|]. split; [reflexivity|]. split; [exact Hsw|].
  split; [exact Hq|]. split; [exact Hfresh|]. split; [exact Hp|]. split; [exact Hq'|].
  split.
  { subst sw. rewrite Hframe; [assumption| |lia]. intros E. rewrite E in Hsw. congruence. }
  split.
  { subst i. rewrite Hframe; [assumption| |lia]. intros E. rewrite E in Hi. congruence. }
  exact Hframe.
Qed.

Lemma queue_repeat_appends_at_tail_witness :
  exists (s' : Controller.St) (p : loc),
    Controller.queue_repeat "mix" (Some 1) state0 = (Ok tt, s')
    /\ fst s' = fst state0
    /\ objects (snd s') !! p
       = Some (RepeatingOracle ["file:s1"; "file:s2"]%string 0 (Some 1))
    /\ objects (snd s') !! 1 = Some (ChainOracle [p] 0).
Proof.
  destruct (queue_repeat_appends_at_tail state0 "mix" (Some 1)
              ["file:s1"; "file:s2"]%string)
    as (s' & q & p & children & cursor & pending
        & Hrun & Hfst & _ & Hsw & Hq & _ & Hp & Hq' & _).
  - exact wired_state0.
  - vm_compute. reflexivity.
  - simpl in Hsw. injection Hsw as <-. simpl in Hq. injection Hq as <- <-.
    exists s', p. repeat split; assumption.
Defined.

(** ** What [get] returns and when it raises *)

Lemma get_song_returns (isfile : string -> bool) (ml : MediaLibrary.t)
    (alias : string) (s' : Song.t) :
  MediaLibrary.get_song isfile ml alias = Ok s'
  <-> exists s, MediaLibrary.song_map ml !! alias = Some s
                /\ isfile (Song.uri s) = true
                /\ s' = Song.Build_t (Song.alias s) (Song.uri s) "".
Proof.
  unfold MediaLibrary.get_song, Song.__init__, _check_file_exists, result_bind.
  destruct (MediaLibrary.song_map ml !! alias) as [s|].
  - destruct (isfile (Song.uri s)) eqn:Hf; split.
    + intros [= <-]. eauto.
    + intros (s0 & [= <-] & _ & ->). reflexivity.
    + discriminate.
    + intros (s0 & [= <-] & Hf' & _). congruence.
  - split; [discriminate|]. intros (s0 & [=] & _).
Qed.

Lemma get_song_raises (isfile : string -> bool) (ml : MediaLibrary.t)
    (alias : string) (e : exn) :
  MediaLibrary.get_song isfile ml alias = Raise e -> e = NotFoundException.
Proof.
  unfold MediaLibrary.get_song, Song.__init__, _check_file_exists, result_bind.
  destruct (MediaLibrary.song_map ml !! alias) as [s|]; [|congruence].
  destruct (isfile (Song.uri s)); congruence.
Qed.

Lemma song_uri_returns (isfile : string -> bool) (ml : MediaLibrary.t)
    (alias u : string) :
  result_bind (MediaLibrary.get_song isfile ml alias) (fun s => Ok (Song.uri s)) = Ok u
  <-> playable isfile ml alias u.
Proof.
  unfold playable.
  destruct (MediaLibrary.get_song isfile ml alias) as [s'|e] eqn:Hs; simpl.
  - apply get_song_returns in Hs as (s & Hs & Hf & ->). simpl. split.
    + intros [= <-]. eauto.
    + intros (s0 & Hs0 & <- & _). congruence.
  - split; [discriminate|]. intros (s & Hs' & <- & Hf).
    assert (MediaLibrary.get_song isfile ml alias
            = Ok (Song.Build_t (Song.alias s) (Song.uri s) "")) as Hok
      by (apply get_song_returns; eauto).
    congruence.
Qed.

Lemma result_map_returns {A B} (f : A -> result B) (xs : list A) (ys : list B) :
  result_map f xs = Ok ys <-> Forall2 (fun x y => f x = Ok y) xs ys.
Proof.
  revert ys. induction xs as [|x xs IH]; intros ys; simpl.
  - split; [intros [= <-]; constructor|by inversion 1].
  - destruct (f x) as [y|e] eqn:Hx; simpl.
    + destruct (result_map f xs) as [ys'|e] eqn:Hxs; simpl.
      * split.
        -- intros [= <-]. constructor; [assumption|by apply IH].
        -- inversion 1 as [|? y0 ? ys0 Hy Hys]; subst.
           apply IH in Hys. congruence.
      * split; [discriminate|]. inversion 1 as [|? y0 ? ys0 Hy Hys]; subst.
        apply IH in Hys. discriminate.
    + split; [discriminate|]. inversion 1; congruence.
Qed.

Lemma result_map_raises {A B} (f : A -> result B) (xs : list A) (e : exn) :
  result_map f xs = Raise e -> exists x, x ∈ xs /\ f x = Raise e.
Proof.
  induction xs as [|x xs IH]; simpl; [discriminate|].
  destruct (f x) as [y|e'] eqn:Hx; simpl.
  - destruct (result_map f xs) as [ys'|e'']; simpl; [discriminate|].
    intros [= ->]. destruct IH as (x' & Hin & Hx'); [reflexivity|].
    exists x'. split; [by right|assumption].
  - intros [= ->]. exists x. split; [by left|assumption].
Qed.

(** X9: [get] on the name of a playlist returns a list exactly when every
    alias of the playlist is a registered song whose file exists, and the
    list then holds the uri of each alias, in playlist order, repeats
    included; a song of the same name is not looked at. On a name that is no
    playlist it returns a list exactly when the name is a registered song
    whose file exists, and the list is that one uri. *)
Theorem get_characterized (isfile : string -> bool) (ml : MediaLibrary.t)
    (name : string) (uris : list string) :
  (forall aliases, MediaLibrary.playlists ml !! name = Some aliases ->
     (MediaLibrary.get isfile ml name = Ok uris
      <-> Forall2 (playable isfile ml) aliases uris))
  /\ (MediaLibrary.playlists ml !! name = None ->
      (MediaLibrary.get isfile ml name = Ok uris
       <-> exists u, playable isfile ml name u /\ uris = [u])).
Proof.
  unfold MediaLibrary.get, MediaLibrary.get_playlist, dict_in. split.
  - intros aliases Hp. rewrite Hp. simpl. rewrite result_map_returns.
    split; intros H; (eapply Forall2_impl; [exact H|]); intros a u;
      apply song_uri_returns.
  - intros Hp. rewrite Hp. simpl.
    destruct (MediaLibrary.song_map ml !! name) as [s|] eqn:Hs; simpl.
    + destruct (MediaLibrary.get_song isfile ml name) as [s'|e] eqn:Hg; simpl.
      * apply get_song_returns in Hg as (s0 & Hs0 & Hf & ->). simpl.
        assert (s0 = s) as -> by congruence. split.
        -- intros [= <-]. exists (Song.uri s). split; [|reflexivity]. exists s. auto.
        -- intros (u & (s1 & Hs1 & <- & _) & ->). congruence.
      * split; [discriminate|]. intros (u & (s1 & Hs1 & <- & Hf) & ->).
        assert (MediaLibrary.get_song isfile ml name
                = Ok (Song.Build_t (Song.alias s1) (Song.uri s1) "")) as Hok
          by (apply get_song_returns; eauto).
        congruence.
    + split; [discriminate|]. intros (u & (s1 & Hs1 & _) & _). congruence.
Qed.

Lemma get_characterized_witness :
  Forall2 (playable (fun _ => true) lib0) ["s1"; "s2"]%string
    ["file:s1"; "file:s2"]%string
  /\ exists u, playable (fun _ => true) lib0 "s2" u /\ ["file:s2"]%string = [u].
Proof.
  split.
  - apply (proj1 (get_characterized (fun _ => true) lib0 "mix"
                    ["file:s1"; "file:s2"]%string) ["s1"; "s2"]%string);
      vm_compute; reflexivity.
  - apply (proj2 (get_characterized (fun _ => true) lib0 "s2" ["file:s2"]%string));
      vm_compute; reflexivity.
Defined.

Lemma get_raises (isfile : string -> bool) (ml : MediaLibrary.t)
    (name : string) (e : exn) :
  MediaLibrary.get isfile ml name = Raise e -> e = NotFoundException.
Proof.
  unfold MediaLibrary.get, MediaLibrary.get_playlist, dict_in.
  destruct (MediaLibrary.playlists ml !! name) as [aliases|]; simpl.
  - intros Hr. apply result_map_raises in Hr as (a & _ & Ha).
    destruct (MediaLibrary.get_song isfile ml a) eqn:Hg; simpl in Ha; [discriminate|].
    injection Ha as <-. by eapply get_song_raises.
  - destruct (MediaLibrary.song_map ml !! name); simpl; [|congruence].
    destruct (MediaLibrary.get_song isfile ml name) eqn:Hg; simpl; [discriminate|].
    intros [= <-]. by eapply get_song_raises.
Qed.

(** X8: whenever the library's [get] raises for the alias, be it an
    unknown name, a playlist naming an unregistered song, or a song whose
    file is gone, the exception is [NotFoundException], and [play], [queue]
    and [queue_repeat] raise it and leave the state they found: tree,
    player, registry and native library. *)
Theorem failed_lookup_changes_nothing (s : Controller.St) (alias : string)
    (times : option nat) (e : exn) :
  MediaLibrary.get (os_path_isfile (snd s)) (Controller.media_library (fst s)) alias
  = Raise e ->
  e = NotFoundException
  /\ Controller.play alias s = (Raise NotFoundException, s)
  /\ Controller.queue alias s = (Raise NotFoundException, s)
  /\ Controller.queue_repeat alias times s = (Raise NotFoundException, s).
Proof.
  intros Hget. pose proof (get_raises _ _ _ _ Hget) as ->. split; [reflexivity|].
  unfold Controller.play, Controller.queue, Controller.queue_repeat, bind,
    Controller.media_library_get, try.
  by rewrite Hget.
Qed.

Lemma failed_lookup_changes_nothing_witness :
  let s := change_env hw3 (fun uri => negb (String.eqb uri "file:s2")) lib0 state0 in
  NotFoundException = NotFoundException
  /\ Controller.play "mix" s = (Raise NotFoundException, s)
  /\ Controller.queue "mix" s = (Raise NotFoundException, s)
  /\ Controller.queue_repeat "mix" None s = (Raise NotFoundException, s).
Proof.
  intros s.
  apply (failed_lookup_changes_nothing s "mix" None NotFoundException).
  vm_compute. reflexivity.
Defined.

Local Open Scope string_scope.

(** ** Writing the library *)

(** X10: [add_song] on an alias already registered, without
    [expect_overwrite], raises [AlreadyExistsException] and leaves the
    library; otherwise it returns, the playlists are untouched, every other
    alias resolves as before, and [get_song] on the alias returns the new
    song's alias and uri with an empty description (the stored description
    is not handed out), or raises [NotFoundException] when its file does
    not exist. *)
Theorem add_song_then_get_song (isfile : string -> bool) (ml : MediaLibrary.t)
    (song : Song.t) (expect_overwrite : bool) :
  (is_Some (MediaLibrary.song_map ml !! Song.alias song) -> expect_overwrite = false ->
   MediaLibrary.add_song song expect_overwrite ml = (Raises AlreadyExistsException, ml))
  /\ (MediaLibrary.song_map ml !! Song.alias song = None \/ expect_overwrite = true ->
      exists ml',
        MediaLibrary.add_song song expect_overwrite ml = (Returns tt, ml')
        /\ MediaLibrary.playlists ml' = MediaLibrary.playlists ml
        /\ MediaLibrary.get_song isfile ml' (Song.alias song)
           = (if isfile (Song.uri song)
              then Ok (Song.Build_t (Song.alias song) (Song.uri song) "")
              else Raise NotFoundException)
        /\ forall a, a <> Song.alias song ->
             MediaLibrary.get_song isfile ml' a = MediaLibrary.get_song isfile ml a).
Proof.
  unfold MediaLibrary.add_song, dict_in. split.
  - intros [s Hs] ->. by rewrite Hs.
  - intros Hfree.
    assert ((match MediaLibrary.song_map ml !! Song.alias song with
             | Some _ => true | None => false end) && negb expect_overwrite = false)
      as -> by (destruct Hfree as [-> | ->]; [reflexivity|apply andb_false_r]).
    eexists. split; [reflexivity|]. split; [reflexivity|]. split.
    + unfold MediaLibrary.get_song. simpl. rewrite lookup_insert_eq.
      unfold Song.__init__, _check_file_exists. by destruct (isfile (Song.uri song)).
    + intros a Ha. unfold MediaLibrary.get_song. simpl.
      by rewrite lookup_insert_ne.
Qed.

Lemma add_song_then_get_song_witness :
  MediaLibrary.add_song (Song.Build_t "s1" "file:new" "again") false lib0
  = (Raises AlreadyExistsException, lib0)
  /\ exists ml',
       MediaLibrary.add_song (Song.Build_t "s1" "file:new" "again") true lib0
       = (Returns tt, ml')
       /\ MediaLibrary.get_song (fun _ => true) ml' "s1"
          = Ok (Song.Build_t "s1" "file:new" "").
Proof.
  split.
  - apply (add_song_then_get_song (fun _ => true) lib0
             (Song.Build_t "s1" "file:new" "again") false); [|reflexivity].
    vm_compute. eauto.
  - destruct (proj2 (add_song_then_get_song (fun _ => true) lib0
                       (Song.Build_t "s1" "file:new" "again") true))
      as (ml' & Hadd & _ & Hget & _); [by right|].
    exists ml'. split; [exact Hadd|exact Hget].
Defined.

(** X11: [create_playlist] raises [IllegalArgument] for the empty name and
    [AlreadyExistsException] for an existing playlist without
    [expect_overwrite], leaving the library; otherwise it returns with the
    songs and the other playlists untouched and the named playlist empty,
    having emptied it if it existed, so that [get] on the name returns the
    empty list even when a song of that name is registered. *)
Theorem create_playlist_then_get (isfile : string -> bool) (ml : MediaLibrary.t)
    (name : string) (expect_overwrite : bool) :
  MediaLibrary.create_playlist "" expect_overwrite ml = (Raises IllegalArgument, ml)
  /\ (name <> "" -> is_Some (MediaLibrary.playlists ml !! name) ->
      expect_overwrite = false ->
      MediaLibrary.create_playlist name expect_overwrite ml
      = (Raises AlreadyExistsException, ml))
  /\ (name <> "" ->
      MediaLibrary.playlists ml !! name = None \/ expect_overwrite = true ->
      exists ml',
        MediaLibrary.create_playlist name expect_overwrite ml = (Returns tt, ml')
        /\ MediaLibrary.song_map ml' = MediaLibrary.song_map ml
        /\ MediaLibrary.get_playlist ml' name = Ok []
        /\ MediaLibrary.get isfile ml' name = Ok []
        /\ forall n, n <> name ->
             MediaLibrary.get_playlist ml' n = MediaLibrary.get_playlist ml n).
Proof.
  split; [reflexivity|]. unfold MediaLibrary.create_playlist. split.
  - intros Hne [l Hl] ->. rewrite (proj2 (String.eqb_neq _ _) Hne). by rewrite Hl.
  - intros Hne Hfree. rewrite (proj2 (String.eqb_neq _ _) Hne).
    exists (MediaLibrary.set_playlists (<[name := []]> (MediaLibrary.playlists ml)) ml).
    split.
    { destruct (MediaLibrary.playlists ml !! name), Hfree as [Hf| ->];
        try discriminate; reflexivity. }
    split; [reflexivity|].
    unfold MediaLibrary.get, MediaLibrary.get_playlist, dict_in. simpl.
    rewrite lookup_insert_eq. repeat split.
    intros n Hn. by rewrite lookup_insert_ne.
Qed.

Lemma create_playlist_then_get_witness :
  MediaLibrary.create_playlist "mix" false lib0 = (Raises AlreadyExistsException, lib0)
  /\ exists ml',
       MediaLibrary.create_playlist "s1" false lib0 = (Returns tt, ml')
       /\ MediaLibrary.get (fun _ => true) ml' "s1" = Ok [].
Proof.
  destruct (create_playlist_then_get (fun _ => true) lib0 "mix" false) as (_ & Hdup & _).
  destruct (create_playlist_then_get (fun _ => true) lib0 "s1" false) as (_ & _ & Hnew).
  split.
  - apply Hdup; [discriminate|vm_compute; eauto|reflexivity].
  - destruct Hnew as (ml' & Hc & _ & _ & Hget & _); [discriminate|left; reflexivity|].
    exists ml'. split; [exact Hc|exact Hget].
Defined.

(** X12: [add_song_to_playlist] raises [NotFoundException] and leaves the
    library when the playlist does not exist or the alias is no registered
    song; otherwise it returns with the alias appended at the end of that
    playlist, the songs and the other playlists untouched. *)
Theorem add_song_to_playlist_appends (ml : MediaLibrary.t)
    (song_alias playlist_name : string) :
  (MediaLibrary.playlists ml !! playlist_name = None ->
   MediaLibrary.add_song_to_playlist song_alias playlist_name ml
   = (Raises (Exn NotFoundException), ml))
  /\ (MediaLibrary.song_map ml !! song_alias = None ->
      MediaLibrary.add_song_to_playlist song_alias playlist_name ml
      = (Raises (Exn NotFoundException), ml))
  /\ (forall songs,
        MediaLibrary.playlists ml !! playlist_name = Some songs ->
        is_Some (MediaLibrary.song_map ml !! song_alias) ->
        exists ml',
          MediaLibrary.add_song_to_playlist song_alias playlist_name ml = (Returns tt, ml')
          /\ MediaLibrary.song_map ml' = MediaLibrary.song_map ml
          /\ MediaLibrary.get_playlist ml' playlist_name = Ok (songs ++ [song_alias])%list
          /\ forall n, n <> playlist_name ->
               MediaLibrary.get_playlist ml' n = MediaLibrary.get_playlist ml n).
Proof.
  unfold MediaLibrary.add_song_to_playlist, dict_in. split; [|split].
  - by intros ->.
  - intros ->. by destruct (MediaLibrary.playlists ml !! playlist_name).
  - intros songs -> [s ->]. simpl. eexists. split; [reflexivity|].
    split; [reflexivity|]. unfold MediaLibrary.get_playlist. simpl.
    rewrite lookup_insert_eq. split; [reflexivity|].
    intros n Hn. by rewrite lookup_insert_ne.
Qed.

Lemma add_song_to_playlist_appends_witness :
  MediaLibrary.add_song_to_playlist "zz" "mix" lib0 = (Raises (Exn NotFoundException), lib0)
  /\ exists ml',
       MediaLibrary.add_song_to_playlist "s1" "mix" lib0 = (Returns tt, ml')
       /\ MediaLibrary.get_playlist ml' "mix" = Ok ["s1"; "s2"; "s1"].
Proof.
  destruct (add_song_to_playlist_appends lib0 "zz" "mix") as (_ & Hunknown & _).
  destruct (add_song_to_playlist_appends lib0 "s1" "mix") as (_ & _ & Happend).
  split.
  - apply Hunknown. vm_compute. reflexivity.
  - destruct (Happend ["s1"; "s2"]) as (ml' & Ha & _ & Hget & _);
      [vm_compute; reflexivity|vm_compute; eauto|].
    exists ml'. split; [exact Ha|exact Hget].
Defined.

Lemma list_remove_returns (x : string) (l : list string) :
  (x ∈ l -> exists l', list_remove x l = Returns l')
  /\ (x ∉ l -> list_remove x l = Raises ValueError).
Proof.
  induction l as [|y l [IHin IHout]]; simpl.
  - split; [by intros ?%elem_of_nil|reflexivity].
  - destruct (String.eqb_spec x y) as [->|Hne]; split.
    + eauto.
    + intros Hout. exfalso. apply Hout. by left.
    + intros Hin. apply elem_of_cons in Hin as [?|Hin]; [done|].
      destruct (IHin Hin) as (l' & ->). eauto.
    + intros Hout. rewrite IHout; [reflexivity|].
      intros Hin. apply Hout. by right.
Qed.

(** X13: [remove_from_playlist] never changes the library: it removes the
    alias from the copy [get_playlist] returns. It raises
    [NotFoundException] when the playlist does not exist and [ValueError]
    when the alias is not in it; when the alias is in it the call returns
    and the playlist still holds every alias it held, that one included. *)
Theorem remove_from_playlist_removes_nothing (ml : MediaLibrary.t)
    (song_alias playlist_name : string) :
  snd (MediaLibrary.remove_from_playlist song_alias playlist_name ml) = ml
  /\ (MediaLibrary.playlists ml !! playlist_name = None ->
      fst (MediaLibrary.remove_from_playlist song_alias playlist_name ml)
      = Raises (Exn NotFoundException))
  /\ (forall songs, MediaLibrary.playlists ml !! playlist_name = Some songs ->
        (song_alias ∉ songs ->
         fst (MediaLibrary.remove_from_playlist song_alias playlist_name ml)
         = Raises ValueError)
        /\ (song_alias ∈ songs ->
            fst (MediaLibrary.remove_from_playlist song_alias playlist_name ml) = Returns tt
            /\ MediaLibrary.get_playlist
                 (snd (MediaLibrary.remove_from_playlist song_alias playlist_name ml))
                 playlist_name = Ok songs)).
Proof.
  unfold MediaLibrary.remove_from_playlist, MediaLibrary.get_playlist.
  destruct (MediaLibrary.playlists ml !! playlist_name) as [songs|] eqn:Hp.
  - destruct (list_remove_returns song_alias songs) as [Hin Hout].
    split; [by destruct (list_remove song_alias songs)|]. split; [discriminate|].
    intros songs' [= <-]. split.
    + intros H. by rewrite (Hout H).
    + intros H. destruct (Hin H) as (l' & ->). simpl. by rewrite Hp.
  - split; [reflexivity|]. split; [reflexivity|]. discriminate.
Qed.

Lemma remove_from_playlist_removes_nothing_witness :
  fst (MediaLibrary.remove_from_playlist "s1" "mix" lib0) = Returns tt
  /\ MediaLibrary.get_playlist (snd (MediaLibrary.remove_from_playlist "s1" "mix" lib0))
       "mix" = Ok ["s1"; "s2"].
Proof.
  destruct (remove_from_playlist_removes_nothing lib0 "s1" "mix") as (_ & _ & Hin).
  apply (Hin ["s1"; "s2"]); [vm_compute; reflexivity|]. by left.
Defined.

(** ** Libraries made through the methods *)

Lemma built_keyed_closed (ml : MediaLibrary.t) : built ml -> keyed ml /\ closed ml.
Proof.
  induction 1 as [|ml song ow _ [Hk Hc]|ml name ow _ [Hk Hc]
                 |ml a p _ [Hk Hc]|ml a p _ [Hk Hc]].
  - split; [intros k s|intros p songs a]; simpl; by rewrite lookup_empty.
  - unfold MediaLibrary.add_song.
    destruct (dict_in _ _ && negb ow); [by split|]. simpl. split.
    + intros k s. simpl. rewrite lookup_insert.
      case_decide; [intros [= <-]; congruence|apply Hk].
    + intros p songs a Hp Ha. simpl in *. rewrite lookup_insert.
      case_decide; [done|]. by eapply Hc.
  - unfold MediaLibrary.create_playlist.
    assert (keyed (MediaLibrary.set_playlists
                     (<[name := []]> (MediaLibrary.playlists ml)) ml)
            /\ closed (MediaLibrary.set_playlists
                         (<[name := []]> (MediaLibrary.playlists ml)) ml)) as Hset.
    { split; [exact Hk|]. intros p songs a. simpl. rewrite lookup_insert.
      case_decide; [intros [= <-] Ha; by apply elem_of_nil in Ha|apply Hc]. }
    destruct (String.eqb name ""); [by split|].
    destruct (MediaLibrary.playlists ml !! name); [|exact Hset].
    destruct (negb ow); [by split|exact Hset].
  - unfold MediaLibrary.add_song_to_playlist.
    destruct (MediaLibrary.playlists ml !! p) as [songs|] eqn:Hp; [|by split].
    unfold dict_in. destruct (MediaLibrary.song_map ml !! a) as [s|] eqn:Hs; [|by split].
    simpl. split; [exact Hk|]. intros p' songs' a'. simpl. rewrite lookup_insert.
    case_decide.
    + intros [= <-] Ha. apply elem_of_app in Ha as [Ha|Ha]; [by eapply Hc|].
      apply list_elem_of_singleton in Ha as ->. by rewrite Hs.
    + apply Hc.
  - unfold MediaLibrary.remove_from_playlist.
    destruct (MediaLibrary.get_playlist ml p) as [copy|]; [|by split].
    by destruct (list_remove a copy).
Qed.

Lemma built_lib1 : built lib1.
Proof. repeat constructor. Defined.

(** X14: in a library made from [MediaLibrary()] by [add_song],
    [create_playlist], [add_song_to_playlist] and [remove_from_playlist],
    no playlist names an unregistered song: when the files of the
    registered songs exist, [get] on any playlist returns, with one uri per
    alias of the playlist, each the uri of the song stored under that alias,
    in playlist order. *)
Theorem built_playlist_plays (isfile : string -> bool) (ml : MediaLibrary.t)
    (name : string) (aliases : list string) :
  built ml ->
  MediaLibrary.playlists ml !! name = Some aliases ->
  (forall a s, MediaLibrary.song_map ml !! a = Some s -> isfile (Song.uri s) = true) ->
  exists uris,
    MediaLibrary.get isfile ml name = Ok uris
    /\ Forall2 (fun a u => exists s, MediaLibrary.song_map ml !! a = Some s
                                     /\ Song.alias s = a /\ Song.uri s = u)
         aliases uris.
Proof.
  intros Hb Hp Hfiles. destruct (built_keyed_closed ml Hb) as [Hk Hc].
  assert (forall l, (forall a, a ∈ l -> is_Some (MediaLibrary.song_map ml !! a)) ->
            exists uris,
              result_map (fun song => result_bind (MediaLibrary.get_song isfile ml song)
                                        (fun s => Ok (Song.uri s))) l = Ok uris
              /\ Forall2 (fun a u => exists s, MediaLibrary.song_map ml !! a = Some s
                                               /\ Song.alias s = a /\ Song.uri s = u)
                   l uris) as Hall.
  { induction l as [|a l IH]; intros Hl; simpl.
    - exists []. split; [reflexivity|constructor].
    - destruct (Hl a) as [s Hs]; [by left|].
      destruct IH as (uris & -> & Huris); [intros a' Ha'; apply Hl; by right|].
      unfold MediaLibrary.get_song at 1. rewrite Hs.
      unfold Song.__init__, _check_file_exists. rewrite (Hfiles a s Hs). simpl.
      exists (Song.uri s :: uris). split; [reflexivity|].
      constructor; [|assumption]. exists s. split; [assumption|]. split; [by apply Hk|done]. }
  unfold MediaLibrary.get, MediaLibrary.get_playlist, dict_in. rewrite Hp. simpl.
  apply Hall. intros a Ha. by eapply Hc.
Qed.

Lemma built_playlist_plays_witness :
  exists uris,
    MediaLibrary.get (fun _ => true) lib1 "mix" = Ok uris
    /\ Forall2 (fun a u => exists s, MediaLibrary.song_map lib1 !! a = Some s
                                     /\ Song.alias s = a /\ Song.uri s = u)
         ["s1"; "s2"] uris.
Proof.
  apply (built_playlist_plays (fun _ => true) lib1 "mix" ["s1"; "s2"] built_lib1).
  - vm_compute. reflexivity.
  - reflexivity.
Defined.

(** ** The sorted listings *)

#[local] Instance key_le_total {A} (key : A -> string) : Total (key_le key).
Proof. intros x y. apply String.leb_total. Qed.

(** X15: [list_playlists] returns the playlists in ascending order of
    their names, each playlist of the library once, with its songs, and
    nothing else. *)
Theorem list_playlists_sorted_complete (ml : MediaLibrary.t) :
  Sorted (key_le fst) (MediaLibrary.list_playlists ml)
  /\ NoDup (fst <$> MediaLibrary.list_playlists ml)
  /\ forall name songs,
       (name, songs) ∈ MediaLibrary.list_playlists ml
       <-> MediaLibrary.playlists ml !! name = Some songs.
Proof.
  unfold MediaLibrary.list_playlists, sorted.
  pose proof (merge_sort_Permutation (key_le fst)
                (map_to_list (MediaLibrary.playlists ml))) as Hperm.
  split; [apply (Sorted_merge_sort _)|]. split.
  - rewrite Hperm. apply NoDup_fst_map_to_list.
  - intros name songs. rewrite Hperm. apply elem_of_map_to_list.
Qed.

(** X16: [list_songs] returns the songs in ascending order of their
    aliases, the songs of the library and nothing else; in a library made
    through the methods no alias comes twice. *)
Theorem list_songs_sorted_complete (ml : MediaLibrary.t) :
  Sorted (key_le Song.alias) (MediaLibrary.list_songs ml)
  /\ (forall s, s ∈ MediaLibrary.list_songs ml
                <-> exists k, MediaLibrary.song_map ml !! k = Some s)
  /\ (built ml -> NoDup (Song.alias <$> MediaLibrary.list_songs ml)).
Proof.
  unfold MediaLibrary.list_songs, sorted.
  pose proof (merge_sort_Permutation (key_le Song.alias)
                (snd <$> map_to_list (MediaLibrary.song_map ml))) as Hperm.
  split; [apply (Sorted_merge_sort _)|]. split.
  - intros s. rewrite Hperm, list_elem_of_fmap. split.
    + intros ([k s'] & -> & Hin). exists k. by apply elem_of_map_to_list.
    + intros (k & Hk). exists (k, s). split; [reflexivity|by apply elem_of_map_to_list].
  - intros Hb. destruct (built_keyed_closed ml Hb) as [Hk _].
    rewrite Hperm. rewrite <- list_fmap_compose.
    rewrite (list_fmap_ext (Song.alias ∘ snd) fst (map_to_list (MediaLibrary.song_map ml))).
    + apply NoDup_fst_map_to_list.
    + intros i [k s] Hin. simpl. apply Hk.
      apply elem_of_map_to_list. by eapply list_elem_of_lookup_2.
Qed.

Lemma list_songs_sorted_complete_witness :
  NoDup (Song.alias <$> MediaLibrary.list_songs lib1).
Proof.
  destruct (list_songs_sorted_complete lib1) as (_ & _ & Hnodup).
  exact (Hnodup built_lib1).
Defined.

Example list_songs_lib1 :
  MediaLibrary.list_songs lib1
  = [Song.Build_t "s1" "file:s1" "first"; Song.Build_t "s2" "file:s2" ""]
  /\ MediaLibrary.list_playlists lib1 = [("mix", ["s1"; "s2"])].
Proof. vm_compute. split; reflexivity. Qed.

(** ** A song and its primitive *)

(** X17: reading back what [to_primitive] wrote gives the song itself,
    alias, uri and description, when the file of its uri exists, and raises
    [NotFoundException] when it does not. *)
Theorem song_primitive_round_trip (isfile : string -> bool) (song : Song.t) :
  Song.from_primitive isfile (Song.to_primitive song)
  = if isfile (Song.uri song) then Returns song else Raises (Exn NotFoundException).
Proof.
  destruct song as [alias uri description].
  unfold Song.from_primitive, Song.to_primitive, Song.getitem.
  unfold VERSION_FIELD, Song.DESCRIPTION_FIELD, Song.URI_FIELD, Song.ALIAS_FIELD.
  rewrite !lookup_insert_ne by done. rewrite lookup_singleton_eq.
  unfold Song.VERSION, float_1_0, Song.SONG_VERSION_PARSER. simpl Z.eqb. cbv iota.
  unfold Song.parse_v1, Song.getitem.
  rewrite !lookup_insert. repeat (case_decide; try done).
  rewrite ?lookup_insert. repeat (case_decide; try done). simpl.
  unfold Song.__init__, _check_file_exists. by destruct (isfile uri).
Qed.

(** X18: [from_primitive] returns a song only for a primitive whose
    version is the float 1.0 and that has an alias and a uri; the song then
    carries the text of the alias, of the uri and of the description (empty
    when there is none), and the file of its uri exists. *)
Theorem from_primitive_accepts (isfile : string -> bool)
    (primitive : gmap string pyobj) (song : Song.t) :
  Song.from_primitive isfile primitive = Returns song ->
  (exists text, primitive !! "version" = Some (PyFloat 0x3FF0000000000000 text))
  /\ (exists a, primitive !! "alias" = Some a /\ Song.alias song = py_str a)
  /\ (exists u, primitive !! "uri" = Some u /\ Song.uri song = py_str u)
  /\ Song.description song
     = match primitive !! "description" with
       | Some d => py_str d
       | None => ""
       end
  /\ isfile (Song.uri song) = true.
Proof.
  unfold Song.from_primitive, Song.getitem, VERSION_FIELD.
  destruct (primitive !! "version") as [[s|bits text|text]|] eqn:Hv; try discriminate.
  unfold Song.SONG_VERSION_PARSER.
  destruct (Z.eqb_spec bits 0x3FF0000000000000) as [->|]; [|discriminate].
  unfold Song.parse_v1, Song.getitem.
  destruct (primitive !! "alias") as [a|] eqn:Ha; [|discriminate].
  destruct (primitive !! "uri") as [u|] eqn:Hu; [|discriminate].
  unfold Song.__init__, _check_file_exists.
  destruct (isfile (py_str u)) eqn:Hf; simpl; [|discriminate].
  intros [= <-]. simpl. split; [eauto|]. split; [eauto|]. split; [eauto|].
  split; [|assumption]. by destruct (primitive !! "description").
Qed.

Lemma from_primitive_accepts_witness :
  (exists text, prim0 !! "version" = Some (PyFloat 0x3FF0000000000000 text))
  /\ (exists a, prim0 !! "alias" = Some a /\ "s1" = py_str a)
  /\ (exists u, prim0 !! "uri" = Some u /\ "file:s1" = py_str u)
  /\ "" = match prim0 !! "description" with
          | Some d => py_str d
          | None => ""
          end
  /\ true = true.
Proof.
  apply (from_primitive_accepts (fun _ => true) prim0 (Song.Build_t "s1" "file:s1" "")).
  vm_compute. reflexivity.
Defined.

Example from_primitive_rejects :
  Song.from_primitive (fun _ => true) (<["version" := PyObject "1"]> prim0)
  = Raises BadFormatException
  /\ Song.from_primitive (fun _ => true)
       (<["version" := PyFloat 0x4000000000000000 "2.0"]> prim0)
     = Raises (Exn KeyError)
  /\ Song.from_primitive (fun _ => true) (delete "uri" prim0) = Raises (Exn KeyError).
Proof. vm_compute. repeat split. Qed.

(** ** The flags *)

Local Open Scope list_scope.

Section flags_properties.
Context {parser value kwargs : Type}.
Variable ArgumentParser : parser.
Variable parse_args : parser -> option (list string) -> outcome (gmap string value).
Variable add_argument : kwargs -> parser -> outcome parser.

Lemma call_all_app (fns1 fns2 : list (parser -> outcome parser)) (p : parser) :
  flags.call_all (fns1 ++ fns2) p
  = match flags.call_all fns1 p with
    | Returns p' => flags.call_all fns2 p'
    | Raises e => Raises e
    end.
Proof.
  revert p. induction fns1 as [|fn fns1 IH]; intros p; simpl; [reflexivity|].
  destruct (fn p); [apply IH|reflexivity].
Qed.

Lemma register_each_unparsed (fns : list (parser -> outcome parser))
    (self : flags.t parser value) :
  flags._flag_namespace self = None ->
  register_each fns self
  = {| flags._flag_namespace := None;
       flags.flag_function_registry := flags.flag_function_registry self ++ fns;
       flags._override_flags := flags._override_flags self |}.
Proof.
  unfold register_each. revert self.
  induction fns as [|fn fns IH]; intros self Hn; simpl.
  - rewrite app_nil_r. destruct self. simpl in *. by subst.
  - unfold flags.register_flags at 2. rewrite Hn. simpl. rewrite IH by reflexivity.
    simpl. by rewrite <- app_assoc.
Qed.

(** X19: on a container whose flags have not been parsed, registering
    functions one after the other appends them to the registry in that
    order, and [init] then returns exactly when every function of the
    registry, the earlier ones first, returns on the parser the one before
    it left, starting from a new parser, and the arguments parse; the
    container then holds the parsed namespace and the same registry. *)
Theorem init_parses_in_registration_order (fns : list (parser -> outcome parser))
    (self : flags.t parser value) :
  flags._flag_namespace self = None ->
  flags.flag_function_registry (register_each fns self)
  = flags.flag_function_registry self ++ fns
  /\ forall self',
       flags.init ArgumentParser parse_args (register_each fns self) = (Returns tt, self')
       <-> exists p1 p2 namespace,
             flags.call_all (flags.flag_function_registry self) ArgumentParser = Returns p1
             /\ flags.call_all fns p1 = Returns p2
             /\ parse_args p2 (flags._override_flags self) = Returns namespace
             /\ self' = {| flags._flag_namespace := Some namespace;
                           flags.flag_function_registry :=
                             flags.flag_function_registry self ++ fns;
                           flags._override_flags := flags._override_flags self |}.
Proof.
  intros Hn. rewrite (register_each_unparsed fns self Hn). split; [reflexivity|].
  intros self'. unfold flags.init. simpl. rewrite call_all_app.
  destruct (flags.call_all (flags.flag_function_registry self) ArgumentParser)
    as [p1|e1] eqn:H1.
  2:{ split; [discriminate|]. intros (q1 & q2 & ns' & [=] & _). }
  destruct (flags.call_all fns p1) as [p2|e2] eqn:H2.
  2:{ split; [discriminate|]. intros (q1 & q2 & ns' & [= <-] & H2' & _). congruence. }
  destruct (parse_args p2 (flags._override_flags self)) as [ns|e3] eqn:Hparse.
  - split.
    + intros [= <-]. eauto 10.
    + intros (q1 & q2 & ns' & [= <-] & H2' & Hp & ->).
      assert (p2 = q2) as <- by congruence. congruence.
  - split; [discriminate|]. intros (q1 & q2 & ns' & [= <-] & H2' & Hp & _).
    assert (p2 = q2) as <- by congruence. congruence.
Qed.


(** X21: [reset] forgets, whatever the container was: no flag can be read
    any more, registration is open again, and an [init] after functions
    were registered sees only those, the ones registered before the reset
    being gone, and parses an empty list of arguments, not the command line
    a new container would parse. *)
Theorem reset_forgets (self : flags.t parser value)
    (fns : list (parser -> outcome parser)) :
  (forall name, flags.__getattr__ name (flags.reset self) = Raises (Exn AttributeError))
  /\ flags.flag_function_registry (register_each fns (flags.reset self)) = fns
  /\ forall self',
       flags.init ArgumentParser parse_args (register_each fns (flags.reset self))
       = (Returns tt, self')
       <-> exists p namespace,
             flags.call_all fns ArgumentParser = Returns p
             /\ parse_args p (Some []) = Returns namespace
             /\ self' = {| flags._flag_namespace := Some namespace;
                           flags.flag_function_registry := fns;
                           flags._override_flags := Some [] |}.
Proof.
  rewrite (register_each_unparsed fns (flags.reset self) eq_refl). simpl.
  split; [reflexivity|]. split; [reflexivity|].
  intros self'. unfold flags.init. simpl.
  destruct (flags.call_all fns ArgumentParser) as [p|e] eqn:Hcall.
  2:{ split; [discriminate|]. intros (q & ns & [=] & _). }
  destruct (parse_args p (Some [])) as [ns|e] eqn:Hparse.
  - split.
    + intros [= <-]. eauto.
    + intros (q & ns' & [= <-] & Hp & ->). congruence.
  - split; [discriminate|]. intros (q & ns' & [= <-] & Hp & _). congruence.
Qed.

End flags_properties.

Lemma init_parses_in_registration_order_witness :
  flags.init [] parse_unset (register_each [flag_verbose; flag_device] flags.__init__)
  = (Returns tt,
     {| flags._flag_namespace :=
          Some (list_to_map [("verbose", "unset"); ("device", "unset")]%string);
        flags.flag_function_registry := [flag_verbose; flag_device];
        flags._override_flags := None |}).
Proof.
  apply (init_parses_in_registration_order [] parse_unset [flag_verbose; flag_device]
           flags.__init__ eq_refl).
  exists [], ["verbose"; "device"]%string,
    (list_to_map [("verbose", "unset"); ("device", "unset")]%string).
  repeat split.
Defined.


(** ** A new controller *)

(** X22: [Controller(media_library)] returns in every world. The new
    controller holds the given library, or an empty one when none is given;
    its registry is built from the list the native library enumerates at
    that moment; its tree is a new root without pending interrupts that
    falls back on a new switch, which targets a new empty chain, the one
    [self.queueing_oracle] refers to; the player has been handed the root
    and nothing else; the objects that existed are untouched. Made without
    a library, it raises [NotFoundException] for every alias it is asked to
    play. *)
Theorem init_builds_controller (ml : option MediaLibrary.t) (w : World) :
  exists (c : Controller.t) (w' : World),
    Controller.__init__ ml w = (Ok c, w')
    /\ Controller.media_library c = default MediaLibrary.__init__ ml
    /\ Controller.devices c
       = AudioDevices.__init__ (alloc_list (brk (native w)) (hardware (native w)))
    /\ Player.requests (Controller.vlc_player c)
       = [Player.play_oracle (Controller.interrupt_oracle c)]
    /\ objects w' !! Controller.interrupt_oracle c
       = Some (InterruptOracle [] (Controller.switch_oracle c))
    /\ objects w' !! Controller.switch_oracle c
       = Some (SwitchOracle (Some (Controller.queueing_oracle c)))
    /\ objects w' !! Controller.queueing_oracle c = Some (ChainOracle [] 0)
    /\ (forall l o, objects w !! l = Some o -> objects w' !! l = Some o)
    /\ (ml = None ->
        forall alias, Controller.play alias (c, w') = (Raise NotFoundException, (c, w'))).
Proof.
  unfold Controller.__init__, oracles.new. simpl.
  rewrite (set_oracle_ok _ _ _ None).
  2:{ rewrite <- !app_assoc. by apply list_lookup_middle. }
  eexists _, _. split; [reflexivity|]. simpl.
  split; [by destruct ml|]. split; [reflexivity|]. split; [reflexivity|].
  rewrite !length_app. simpl. rewrite <- !app_assoc. simpl.
  assert (length (objects w) < length (objects w ++ [SwitchOracle None; ChainOracle [] 0;
                              InterruptOracle [] (length (objects w))])) as Hlen
    by (rewrite length_app; simpl; lia).
  split.
  { rewrite list_lookup_insert_ne by lia.
    replace (length (objects w) + 1 + 1) with (length (objects w) + 2) by lia.
    by rewrite lookup_app_r, Nat.add_sub' by lia. }
  split; [by rewrite list_lookup_insert_eq|].
  split.
  { rewrite list_lookup_insert_ne by lia.
    by rewrite lookup_app_r, Nat.add_sub' by lia. }
  split.
  { intros l o Hl. pose proof (lookup_lt_Some _ _ _ Hl).
    rewrite list_lookup_insert_ne by lia. by apply lookup_app_l_Some. }
  intros -> alias.
  unfold Controller.play, bind, Controller.media_library_get, try. simpl.
  by rewrite get_unregistered by apply lookup_empty.
Qed.

Lemma init_builds_controller_witness :
  exists (c : Controller.t) (w' : World),
    Controller.__init__ None world0 = (Ok c, w')
    /\ objects w' !! Controller.queueing_oracle c = Some (ChainOracle [] 0)
    /\ Controller.play "mix" (c, w') = (Raise NotFoundException, (c, w')).
Proof.
  destruct (init_builds_controller None world0)
    as (c & w' & Hinit & _ & _ & _ & _ & _ & Hq & _ & Hplay).
  exists c, w'. split; [exact Hinit|]. split; [exact Hq|exact (Hplay eq_refl "mix"%string)].
Defined.

Lemma reset_forgets_witness :
  let parsed :=
    {| flags._flag_namespace :=
         Some (list_to_map [("verbose", "unset")]%string : gmap string string);
       flags.flag_function_registry := [flag_verbose];
       flags._override_flags := None |} in
  flags.init [] parse_unset (register_each [flag_device] (flags.reset parsed))
  = (Returns tt,
     {| flags._flag_namespace := Some (list_to_map [("device", "unset")]%string);
        flags.flag_function_registry := [flag_device];
        flags._override_flags := Some [] |}).
Proof.
  intros parsed.
  destruct (reset_forgets [] parse_unset parsed [flag_device]) as (_ & _ & Hinit).
  apply Hinit. exists ["device"%string], (list_to_map [("device", "unset")]%string).
  repeat split.
Defined.
